(** * A verified model of the Express server skeleton

    The development embeds [src/config.js] (the configuration loader) and
    the server module (middleware chain, routes, error handler, graceful
    shutdown) and proves the properties stated for them.

    JavaScript strings are embedded as [string]; every [ascii] stands for
    one UTF-16 code unit below 256.  JavaScript [undefined] is [None]. *)

From Stdlib Require Import ZArith NArith Ascii String List Bool Lia.
From stdpp Require Import base option list strings pretty gmap.
Import ListNotations.

Set Warnings "-register-all".

Local Open Scope string_scope.
Local Open Scope N_scope.

(** ** JavaScript values and string primitives *)

Module JS.

(** [WhiteSpace] and [LineTerminator] code units below 256, the ones
    [String.prototype.trim] and [StringToNumber] strip: TAB, LF, VT, FF,
    CR, SP and NBSP. *)
Definition is_ws (c : ascii) : bool :=
  let n := N_of_ascii c in
  ((9 <=? n) && (n <=? 13)) || (n =? 32) || (n =? 160).

Definition comma : ascii := ","%char.

(** [s.trimStart()] *)
Fixpoint trim_start (s : string) : string :=
  match s with
  | EmptyString => EmptyString
  | String c r => if is_ws c then trim_start r else s
  end.

(** [s.trimEnd()] *)
Fixpoint trim_end (s : string) : string :=
  match s with
  | EmptyString => EmptyString
  | String c r =>
      match trim_end r with
      | EmptyString => if is_ws c then EmptyString else String c EmptyString
      | r' => String c r'
      end
  end.

(** [s.trim()] *)
Definition trim (s : string) : string := trim_end (trim_start s).

(** [s.split(sep)] for a separator of one code unit.  The result is never
    empty: [split_on sep ""] is [[""]], as in JavaScript. *)
Fixpoint split_on (sep : ascii) (s : string) : list string :=
  match s with
  | EmptyString => [EmptyString]
  | String c r =>
      if Ascii.eqb c sep then EmptyString :: split_on sep r
      else match split_on sep r with
           | h :: t => String c h :: t
           | [] => [String c EmptyString]
           end
  end.

(** [parts.join(sep)] *)
Fixpoint join (sep : ascii) (parts : list string) : string :=
  match parts with
  | [] => EmptyString
  | [p] => p
  | p :: rest => p ++ String sep (join sep rest)
  end.

(** [Boolean(s)] on a string: only the empty string is falsy. *)
Definition truthy (s : string) : bool :=
  match s with EmptyString => false | _ => true end.

(** The left operand of [v || d] when [v] is a string or [undefined]:
    [Some s] when [v] is truthy and the operator returns it, [None] when
    the operator falls through to [d]. *)
Definition or_operand (v : option string) : option string :=
  match v with
  | Some s => if truthy s then Some s else None
  | None => None
  end.

(** Every code unit of [s] satisfies [p]. *)
Fixpoint all_chars (p : ascii -> bool) (s : string) : bool :=
  match s with
  | EmptyString => true
  | String c r => p c && all_chars p r
  end.

(** [s.includes(c)] for one code unit. *)
Fixpoint has_char (c : ascii) (s : string) : bool :=
  match s with
  | EmptyString => false
  | String d r => Ascii.eqb d c || has_char c r
  end.

Definition head_char (s : string) : option ascii :=
  match s with EmptyString => None | String c _ => Some c end.

Fixpoint last_char (s : string) : option ascii :=
  match s with
  | EmptyString => None
  | String c EmptyString => Some c
  | String _ r => last_char r
  end.

(** *** Numbers

    A JavaScript number as [Number(...)] produces it from a string: NaN, an
    infinity, or the mathematical value [m * 10^e] of the literal (with its
    sign).  The number JavaScript holds is that value rounded to binary64,
    an infinity when it is too large; the rounding is not carried out
    here, so [Num] is the number itself only where binary64 is exact, as
    for the integers below 2^53. *)
Inductive number : Type :=
  | NaN
  | Infinity (neg : bool)
  | Num (neg : bool) (m : N) (e : Z).

Definition is_NaN (x : number) : bool :=
  match x with NaN => true | _ => false end.

Definition of_nat_literal (n : N) : number := Num false n 0.

Definition digit_of (radix : N) (c : ascii) : option N :=
  let n := N_of_ascii c in
  let v :=
    if (48 <=? n) && (n <=? 57) then Some (n - 48)
    else if (97 <=? n) && (n <=? 102) then Some (n - 87)
    else if (65 <=? n) && (n <=? 70) then Some (n - 55)
    else None in
  match v with
  | Some d => if d <? radix then Some d else None
  | None => None
  end.

(** Longest prefix of digits: accumulated value, number of digits, rest. *)
Fixpoint take_digits (radix : N) (s : string) (acc : N) (cnt : nat)
  : N * nat * string :=
  match s with
  | EmptyString => (acc, cnt, EmptyString)
  | String c r =>
      match digit_of radix c with
      | Some d => take_digits radix r (radix * acc + d) (S cnt)
      | None => (acc, cnt, s)
      end
  end.

(** [s] is a non-empty run of digits in [radix], and nothing else. *)
Definition all_digits (radix : N) (s : string) : option N :=
  match take_digits radix s 0 0%nat with
  | (v, S _, EmptyString) => Some v
  | _ => None
  end.

(** [ExponentPart] (optional): [e] or [E], an optional sign, digits. *)
Definition exponent_part (s : string) : option Z :=
  match s with
  | EmptyString => Some 0%Z
  | String c r =>
      if Ascii.eqb c "e" || Ascii.eqb c "E" then
        match r with
        | String "-" r' => option_map (fun v => (- Z.of_N v)%Z) (all_digits 10 r')
        | String "+" r' => option_map Z.of_N (all_digits 10 r')
        | _ => option_map Z.of_N (all_digits 10 r)
        end
      else None
  end.

(** [StrUnsignedDecimalLiteral] *)
Definition unsigned_decimal (neg : bool) (s : string) : option number :=
  if String.eqb s "Infinity" then Some (Infinity neg)
  else
    let '(i, ci, r1) := take_digits 10 s 0 0%nat in
    match r1 with
    | String "." r2 =>
        let '(m, cf, r3) := take_digits 10 r2 i 0%nat in
        match (ci + cf)%nat with
        | O => None
        | S _ =>
            option_map (fun e => Num neg m (e - Z.of_nat cf)%Z) (exponent_part r3)
        end
    | _ =>
        match ci with
        | O => None
        | S _ => option_map (fun e => Num neg i e) (exponent_part r1)
        end
    end.

(** [StrNumericLiteral]: a signed decimal literal, or an unsigned
    hexadecimal, octal or binary integer literal. *)
Definition numeric_literal (s : string) : option number :=
  match s with
  | String "0" (String p r) =>
      let radix :=
        if Ascii.eqb p "x" || Ascii.eqb p "X" then Some 16
        else if Ascii.eqb p "o" || Ascii.eqb p "O" then Some 8
        else if Ascii.eqb p "b" || Ascii.eqb p "B" then Some 2
        else None in
      match radix with
      | Some rx => option_map of_nat_literal (all_digits rx r)
      | None => unsigned_decimal false s
      end
  | String "-" r => unsigned_decimal true r
  | String "+" r => unsigned_decimal false r
  | _ => unsigned_decimal false s
  end.

(** [StringToNumber]: surrounding white space is ignored, the empty
    literal is [+0], anything outside the grammar is NaN. *)
Definition string_to_number (s : string) : number :=
  match trim s with
  | EmptyString => Num false 0 0
  | t => match numeric_literal t with
         | Some x => x
         | None => NaN
         end
  end.

(** The string is a [StringNumericLiteral]. *)
Definition is_numeric_string (s : string) : bool :=
  match trim s with
  | EmptyString => true
  | t => match numeric_literal t with Some _ => true | None => false end
  end.

End JS.

(** ** The configuration loader, [src/config.js] *)

Module Config.

(** [process.env] once [dotenv] has run: a finite map from names to
    strings; a variable that is not set reads as [undefined]. *)
Abbreviation process_env := (gmap string string).

(** [parseOrigins(val)] *)
Definition parseOrigins (val : option string) : list string :=
  match JS.or_operand val with
  | None => []                                         (* if (!val) return [] *)
  | Some v => List.filter JS.truthy
                            (List.map JS.trim (JS.split_on JS.comma v))
  end.

(** The exported object. *)
Record config : Type := {
  env : string;
  port : JS.number;
  corsOrigins : list string;
  trustProxy : bool;
  baseUrl : option string            (* [None] is JavaScript's [null] *)
}.

(** [Number(process.env.PORT || 3000)] *)
Definition load_port (v : option string) : JS.number :=
  match JS.or_operand v with
  | Some s => JS.string_to_number s
  | None => JS.of_nat_literal 3000
  end.

Definition load (e : process_env) : config := {|
  env := default "development" (JS.or_operand (e !! "NODE_ENV"));
  port := load_port (e !! "PORT");
  corsOrigins := parseOrigins (e !! "CORS_ORIGINS");
  trustProxy := match e !! "TRUST_PROXY" with
                | Some v => String.eqb v "1"
                | None => false
                end;
  baseUrl := JS.or_operand (e !! "BASE_URL")
|}.

End Config.

(** ** Requests, responses and errors *)

Module Http.

(** [req.method], as Node's parser delivers it (upper case). *)
Inductive method : Type :=
  | GET | HEAD | POST | PUT | DELETE | PATCH | OPTIONS
  | OtherMethod (name : string).

Definition method_eqb (a b : method) : bool :=
  match a, b with
  | GET, GET | HEAD, HEAD | POST, POST | PUT, PUT
  | DELETE, DELETE | PATCH, PATCH | OPTIONS, OPTIONS => true
  | OtherMethod x, OtherMethod y => String.eqb x y
  | _, _ => false
  end.

(** The media type of a request body, as far as the two body parsers
    distinguish it. *)
Inductive media : Type := MediaJson | MediaUrlencoded | MediaOther.

(** What a body parser can find wrong with a body of its media type,
    apart from its length: a charset or content encoding it does not
    support (found before the body is read), more parameters than a
    urlencoded body may have (found after it is read), or content that
    does not parse.  Each carries the message of the parser's error where
    it depends on the request. *)
Inductive parse_failure : Type :=
  | Unsupported (msg : string)
  | TooManyParameters
  | Malformed (msg : string).

(** A request body: its media type, its length in bytes, and what the
    parser of that media type finds wrong with it, if anything. *)
Record payload : Type := {
  media_type : media;
  byte_length : N;
  parse_error : option parse_failure
}.

Record request : Type := {
  req_method : method;
  req_path : string;                  (* the pathname of [req.url] *)
  req_origin : option string;         (* [req.headers.origin] *)
  req_request_id : option string;     (* [req.headers["x-request-id"]] *)
  req_ip : string;                    (* [req.ip] *)
  req_payload : option payload
}.

(** An error value passed to [next(err)]: [err.status] and [err.message],
    each [undefined] when the property is missing. *)
Record error : Type := {
  err_status : option Z;
  err_message : option string
}.

(** [new Error(msg)] *)
Definition Error (msg : string) : error :=
  {| err_status := None; err_message := Some msg |}.

(** [createError(status, msg)] of the body parsers. *)
Definition createError (st : Z) (msg : string) : error :=
  {| err_status := Some st; err_message := Some msg |}.

Inductive json : Type :=
  | JBool (b : bool)
  | JString (s : string)
  | JDate (ms : Z)                    (* [new Date(ms).toISOString()] *)
  | JArray (items : list json)
  | JObject (fields : list (string * json)).

(** An object literal given to [res.json]: [JSON.stringify] leaves out the
    properties whose value is [undefined]. *)
Definition object (fields : list (string * option json)) : json :=
  JObject (omap (fun kv => match snd kv with
                           | Some v => Some (fst kv, v)
                           | None => None
                           end) fields).

(** What the handler gave to [res.send] or [res.json].  (For a HEAD
    request Node transmits the status line and the headers only.)
    [Page] is the HTML page of Express's final handler, whose text is not
    modelled. *)
Inductive body : Type :=
  | NoBody
  | Text (s : string)
  | Json (j : json)
  | Page.

(** Which part of the application ended the response (ghost data). *)
Inductive responder : Type :=
  | ByCors
  | ByLimiter
  | ByRoute (path : string)
  | ByNotFound
  | ByErrorHandler
  | ByFinalHandler.

(** A response: status code, body, the rate-limit headers set on it (the
    other headers are not modelled) and its responder. *)
Record response : Type := {
  status : Z;
  content : body;
  headers : list (string * string);
  sent_by : responder
}.

(** The status codes Node writes; [res.status(s).json(..)] throws a
    [RangeError] for any other. *)
Definition valid_status (s : Z) : bool := ((100 <=? s) && (s <=? 999))%Z.

(** The error thrown for a status code that cannot be written. *)
Definition RangeError (s : Z) : error :=
  {| err_status := None;
     err_message := Some ("Invalid status code: " ++ pretty s) |}.

Definition is_route (r : responder) : bool :=
  match r with ByRoute _ => true | _ => false end.

Definition lower_char (c : ascii) : ascii :=
  let n := N_of_ascii c in
  if (65 <=? n) && (n <=? 90) then ascii_of_N (n + 32) else c.

Fixpoint lower (s : string) : string :=
  match s with
  | EmptyString => EmptyString
  | String c r => String (lower_char c) (lower r)
  end.

(** [s] without one trailing slash. *)
Fixpoint strip_slash (s : string) : string :=
  match s with
  | EmptyString => EmptyString
  | String c EmptyString => if Ascii.eqb c "/" then EmptyString else s
  | String c r => String c (strip_slash r)
  end.

(** [Some rest] when [s = p ++ rest]. *)
Fixpoint strip_prefix (p s : string) : option string :=
  match p, s with
  | EmptyString, _ => Some s
  | String a p', String b s' =>
      if Ascii.eqb a b then strip_prefix p' s' else None
  | String _ _, EmptyString => None
  end.

End Http.

(** ** The server module: middleware chain, routes, error handler *)

Module Server.
Import Http.

(** One bucket of the rate limiter's memory store. *)
Record bucket : Type := {
  totalHits : N;
  resetTime : Z                       (* milliseconds, as [Date.now()] *)
}.

(** The state a request is processed in: the limiter's store (shared by
    all requests), the clock [Date.now()], and the headers already set on
    the response object. *)
Record ctx : Type := {
  store : gmap string bucket;
  now : Z;
  out_headers : list (string * string)
}.

(** What a middleware function does with [(req, res, next)]: call
    [next()], call [next(err)], or end the response. *)
Inductive result : Type :=
  | Next (c : ctx)
  | Throw (e : error) (c : ctx)
  | Send (r : response) (c : ctx).

Definition middleware : Type := request -> ctx -> result.

(** [res.status(st).send(b)] / [res.status(st).json(b)] *)
Definition send (who : responder) (st : Z) (b : body) (c : ctx) : result :=
  Send {| status := st; content := b;
          headers := out_headers c; sent_by := who |} c.

(** The layers of the application's router, in registration order. *)
Inductive layer : Type :=
  | Use (mount : option string) (mw : middleware)   (* [app.use([path,] fn)] *)
  | Route (m : method) (path : string) (h : middleware)  (* [app.get(path, fn)] *)
  | UseError (h : error -> middleware).             (* [app.use((err, req, res, next) => ..)] *)

(** Route paths match case-insensitively and with an optional trailing
    slash (Express's defaults: [case sensitive routing] and
    [strict routing] are off). *)
Definition route_path_matches (pattern path : string) : bool :=
  let b := lower (strip_slash pattern) in
  let q := lower path in
  String.eqb q b || String.eqb q (b ++ "/").

(** A mount path matches a prefix of the path that ends at a segment
    boundary. *)
Definition mount_matches (mount : option string) (path : string) : bool :=
  match mount with
  | None => true
  | Some m =>
      match strip_prefix (lower (strip_slash m)) (lower path) with
      | Some EmptyString => true
      | Some (String c _) => Ascii.eqb c "/"
      | None => false
      end
  end.

(** A route registered for [m] also handles HEAD when [m] is GET
    (Express's [Route.prototype._handles_method]). *)
Definition handles_method (m : method) (actual : method) : bool :=
  method_eqb m actual || (method_eqb m GET && method_eqb actual HEAD).

(** Express's last resort when the stack is exhausted: 404 without
    error, and with an error its status when that is a 4xx or 5xx code,
    500 otherwise. *)
Definition finalhandler (err : option error) (req : request) (c : ctx) : response :=
  {| status := match err with
               | None => 404
               | Some e =>
                   match err_status e with
                   | Some s => if ((400 <=? s) && (s <=? 599))%Z then s else 500
                   | None => 500
                   end
               end;
     content := Page;
     headers := out_headers c;
     sent_by := ByFinalHandler |}.

(** The router: layers are tried in order; after [next(err)] only the
    error-handling layers are.  A layer that ends the response with a
    status code Node cannot write has thrown instead, and what a layer
    throws Express hands to [next(err)]. *)
Fixpoint dispatch (stack : list layer) (err : option error)
                  (req : request) (c : ctx) : response * ctx :=
  let continue (rest : list layer) (r : result) :=
    match r with
    | Next c' => dispatch rest None req c'
    | Throw e c' => dispatch rest (Some e) req c'
    | Send resp c' =>
        if valid_status (status resp) then (resp, c')
        else dispatch rest (Some (RangeError (status resp))) req c'
    end in
  match stack with
  | [] => (finalhandler err req c, c)
  | l :: rest =>
      match err, l with
      | None, Use mount mw =>
          if mount_matches mount (req_path req)
          then continue rest (mw req c)
          else dispatch rest None req c
      | None, Route m p h =>
          if route_path_matches p (req_path req)
             && handles_method m (req_method req)
          then continue rest (h req c)
          else dispatch rest None req c
      | None, UseError _ => dispatch rest None req c
      | Some e, UseError h => continue rest (h e req c)
      | Some e, _ => dispatch rest (Some e) req c
      end
  end.

(** *** Logging *)

(** [genReqId: (req) => req.headers["x-request-id"] || undefined] *)
Definition genReqId (req : request) : option string :=
  JS.or_operand (req_request_id req).

(** [customLogLevel(_req, res, err)] *)
Definition customLogLevel (statusCode : Z) (err : option error) : string :=
  if bool_decide (is_Some err) || (500 <=? statusCode)%Z then "error"
  else if (400 <=? statusCode)%Z then "warn"
  else "info".

(** The identifier of a request: the string [genReqId] returned, or a
    number of pino-http's own counter. *)
Inductive request_id : Type :=
  | IdString (s : string)
  | IdCounter (n : N).

(** pino-http's [reqIdGenFactory(func)], with its counter [nextReqId]
    made explicit: a [genReqId] option that is a function is the
    generator as it is; only without one does pino-http count. *)
Definition reqIdGenFactory (func : option (request -> option string))
                           (nextReqId : N) (req : request)
  : option request_id * N :=
  match func with
  | Some f => (option_map IdString (f req), nextReqId)
  | None =>
      let n := N.land (nextReqId + 1) 2147483647 in
      (Some (IdCounter n), n)
  end.

(** [req.id] as the logging middleware of this application sets it
    ([req.id = req.id || genReqId(req, res)]; nothing sets it before), and
    the counter afterwards.  [None] is [undefined]. *)
Definition assigned_id (nextReqId : N) (req : request) : option request_id * N :=
  reqIdGenFactory (Some genReqId) nextReqId req.

(** [pinoHttp(..)], [helmet()] and [compression()] call [next()]; what
    they log or set is not part of the modelled response. *)
Definition pinoHttp : middleware := fun _ c => Next c.
Definition helmet : middleware := fun _ c => Next c.
Definition compression : middleware := fun _ c => Next c.

(** *** Body parsing *)

(** [bytes.parse("1mb")] *)
Definition limit_1mb : N := 1024 * 1024.

(** What [express.json({ limit })] or [express.urlencoded({ limit })]
    finds wrong with the request.  Only a body of the parser's media type
    is looked at: an unsupported charset or content encoding is refused
    with 415 before the body is read, a body longer than the limit with
    413, a urlencoded body with too many parameters with 413, and one
    that does not parse with 400. *)
Definition parse_body (accepts : media) (limit : N) (req : request) : option error :=
  match req_payload req with
  | None => None
  | Some p =>
      let mine := match accepts, media_type p with
                  | MediaJson, MediaJson
                  | MediaUrlencoded, MediaUrlencoded => true
                  | _, _ => false
                  end in
      if negb mine then None
      else match parse_error p with
           | Some (Unsupported msg) => Some (createError 415 msg)
           | other =>
               if limit <? byte_length p
               then Some (createError 413 "request entity too large")
               else match other with
                    | Some TooManyParameters =>
                        Some (createError 413 "too many parameters")
                    | Some (Malformed msg) => Some (createError 400 msg)
                    | _ => None
                    end
           end
  end.

Definition body_parser (accepts : media) (limit : N) : middleware :=
  fun req c =>
    match parse_body accepts limit req with
    | Some e => Throw e c
    | None => Next c
    end.

(** *** CORS *)

(** What the [origin] callback hands to [cb]. *)
Inductive origin_verdict : Type :=
  | Allow                             (* [cb(null, true)] *)
  | Deny (e : error).                 (* [cb(err)] *)

(** The options given to [cors]: [origin] is [None] when the property is
    missing. *)
Record cors_options : Type := {
  origin : option (option string -> origin_verdict);
  credentials : bool
}.

(** The [origin] function of [corsOptions], closed over [corsOrigins]. *)
Definition origin_callback (corsOrigins : list string)
                           (o : option string) : origin_verdict :=
  match JS.or_operand o with
  | None => Allow                                        (* [!origin] *)
  | Some v =>
      if bool_decide (v ∈ corsOrigins) then Allow        (* [corsOrigins.includes(origin)] *)
      else Deny (Error "Not allowed by CORS")
  end.

(** [corsOptions] *)
Definition corsOptions (corsOrigins : list string) : cors_options :=
  match corsOrigins with
  | [] => {| origin := None; credentials := false |}      (* [{}] *)
  | _ => {| origin := Some (origin_callback corsOrigins); credentials := true |}
  end.

(** The verdict of the options' [origin] on the request; without the
    property every origin is allowed (the default ["*"]). *)
Definition check_origin (o : cors_options) (req : request) : origin_verdict :=
  match origin o with
  | Some f => f (req_origin req)
  | None => Allow
  end.

(** [cors(options)]: the origin callback decides; an error goes to
    [next(err)]; an OPTIONS request is answered as a preflight with 204
    ([preflightContinue] is off by default); any other request goes on. *)
Definition cors (o : cors_options) : middleware :=
  fun req c =>
    match check_origin o req with
    | Deny e => Throw e c
    | Allow =>
        match req_method req with
        | OPTIONS => send ByCors 204 NoBody c
        | _ => Next c
        end
    end.

(** *** Rate limiting *)

Record rate_limit_options : Type := {
  windowMs : Z;
  max : N;
  standardHeaders : bool;
  legacyHeaders : bool
}.

(** [apiLimiter]'s options. *)
Definition apiLimiterOptions : rate_limit_options := {|
  windowMs := 10 * 60 * 1000;
  max := 100;
  standardHeaders := true;
  legacyHeaders := false
|}.

(** The bucket a request of [key] is counted in: the stored one while its
    window lasts, a new one otherwise. *)
Definition current_bucket (o : rate_limit_options) (c : ctx) (key : string) : bucket :=
  let fresh := {| totalHits := 0; resetTime := (now c + windowMs o)%Z |} in
  match store c !! key with
  | Some b => if (resetTime b <=? now c)%Z then fresh else b
  | None => fresh
  end.

(** Seconds from now to the bucket's reset, rounded up, and not below 0. *)
Definition reset_seconds (c : ctx) (b : bucket) : Z :=
  Z.max 0 ((resetTime b - now c + 999) / 1000).

(** The headers the limiter sets on every response it lets pass or ends:
    the legacy ones first, then the standard ones (draft 6: the policy,
    the limit, what is left of it and, unless it is 0, the time to the
    reset in seconds). *)
Definition rate_limit_headers (o : rate_limit_options) (c : ctx) (b : bucket)
  : list (string * string) :=
  let limit := pretty (max o) in
  let remaining := pretty (max o - totalHits b) in
  (if legacyHeaders o
   then [("X-RateLimit-Limit", limit); ("X-RateLimit-Remaining", remaining);
         ("X-RateLimit-Reset", pretty ((resetTime b + 999) / 1000)%Z)]
   else []) ++
  (if standardHeaders o
   then [("RateLimit-Policy", limit ++ ";w=" ++ pretty ((windowMs o + 999) / 1000)%Z);
         ("RateLimit-Limit", limit); ("RateLimit-Remaining", remaining)] ++
        (if (reset_seconds c b =? 0)%Z then []
         else [("RateLimit-Reset", pretty (reset_seconds c b))])
   else []).

(** The header added to a 429 answer when either kind of headers is on. *)
Definition retry_after_header (o : rate_limit_options) (c : ctx) (b : bucket)
  : list (string * string) :=
  if legacyHeaders o || standardHeaders o
  then [("Retry-After", pretty (reset_seconds c b))]
  else [].

(** [rateLimit(options)] with its memory store, keyed by [req.ip]: the
    request is counted, the headers are set, and a count above [max] is
    answered with 429. *)
Definition rateLimit (o : rate_limit_options) : middleware :=
  fun req c =>
    let key := req_ip req in
    let b := current_bucket o c key in
    let b' := {| totalHits := totalHits b + 1; resetTime := resetTime b |} in
    let c' := {| store := <[key := b']> (store c);
                 now := now c;
                 out_headers := out_headers c ++ rate_limit_headers o c b' |} in
    if max o <? totalHits b'
    then send ByLimiter 429 (Text "Too many requests, please try again later.")
              {| store := store c'; now := now c';
                 out_headers := out_headers c' ++ retry_after_header o c b' |}
    else Next c'.

Definition apiLimiter : middleware := rateLimit apiLimiterOptions.

(** *** Routes *)

Definition livez : middleware := fun _ c => send (ByRoute "/livez") 200 (Text "OK") c.

Definition readyz : middleware := fun _ c => send (ByRoute "/readyz") 200 (Text "READY") c.

Definition api_hello : middleware := fun _ c =>
  send (ByRoute "/api/hello") 200
    (Json (object [("ok", Some (JBool true));
                   ("message", Some (JString "Hello from Express (prod-ready)!"));
                   ("time", Some (JDate (now c)))])) c.

Definition root (cfg : Config.config) : middleware := fun _ c =>
  send (ByRoute "/") 200
    (Json (object
      [("ok", Some (JBool true));
       ("service", Some (JString "prod-express-server"));
       ("endpoints", Some (JArray [JString "/api/hello"; JString "/livez";
                                   JString "/readyz"]));
       ("env", Some (JString (Config.env cfg)));
       ("baseUrl", Some (JString (default "set BASE_URL in env to print public URL"
                                     (JS.or_operand (Config.baseUrl cfg)))))])) c.

Definition not_found_body : body :=
  Json (object [("ok", Some (JBool false)); ("error", Some (JString "Not Found"))]).

(** The 404 middleware. *)
Definition notFound : middleware := fun _ c => send ByNotFound 404 not_found_body c.

(** [err.status || 500]: [undefined] and [0] are falsy. *)
Definition status_or_500 (st : option Z) : Z :=
  match st with
  | Some s => if (s =? 0)%Z then 500%Z else s
  | None => 500%Z
  end.

Definition error_body (env : string) (e : error) : body :=
  Json (object
    [("ok", Some (JBool false));
     ("error", if String.eqb env "production"
               then Some (JString "Internal Server Error")
               else option_map JString (err_message e))]).

(** The error handler. *)
Definition errorHandler (cfg : Config.config) (e : error) : middleware :=
  fun _ c => send ByErrorHandler (status_or_500 (err_status e))
                  (error_body (Config.env cfg) e) c.

(** *** The application

    The layers in the order of the [app.use] and [app.get] calls.
    [app.disable("x-powered-by")] only removes a header, and
    [app.set("trust proxy", 1)] only changes how Express finds [req.ip];
    [req_ip] is the address it settles on. *)

Definition app (cfg : Config.config) : list layer :=
  [ Use None pinoHttp;
    Use None helmet;
    Use None compression;
    Use None (body_parser MediaJson limit_1mb);
    Use None (body_parser MediaUrlencoded limit_1mb);
    Use None (cors (corsOptions (Config.corsOrigins cfg)));
    Use (Some "/api") apiLimiter;
    Route GET "/livez" livez;
    Route GET "/readyz" readyz;
    Route GET "/api/hello" api_hello;
    Route GET "/" (root cfg);
    Use None notFound;
    UseError (errorHandler cfg) ].

(** One request served at time [t] with the limiter's store [st]: the
    response and the store afterwards. *)
Definition serve (cfg : Config.config) (st : gmap string bucket) (t : Z)
                 (req : request) : response * gmap string bucket :=
  let '(r, c) := dispatch (app cfg) None req
                   {| store := st; now := t; out_headers := [] |} in
  (r, store c).

(** Requests served one after the other, each at its own time. *)
Fixpoint serve_all (cfg : Config.config) (st : gmap string bucket)
                   (reqs : list (Z * request))
  : list response * gmap string bucket :=
  match reqs with
  | [] => ([], st)
  | (t, req) :: rest =>
      let '(r, st1) := serve cfg st t req in
      let '(rs, st2) := serve_all cfg st1 rest in
      (r :: rs, st2)
  end.

(** The routes registered with [app.get]: method and path. *)
Definition wired_routes : list (method * string) :=
  [(GET, "/livez"); (GET, "/readyz"); (GET, "/api/hello"); (GET, "/")].

(** Some wired route takes the request. *)
Definition route_matches (req : request) : bool :=
  existsb (fun mp => route_path_matches (snd mp) (req_path req)
                     && handles_method (fst mp) (req_method req))
          wired_routes.

(** The routes and what follows them: the part of [app] behind the
    limiter. *)
Definition behind_limiter (cfg : Config.config) : list layer :=
  skipn 7 (app cfg).

(** Both body parsers call [next()]. *)
Definition body_accepted (req : request) : bool :=
  match parse_body MediaJson limit_1mb req,
        parse_body MediaUrlencoded limit_1mb req with
  | None, None => true
  | _, _ => false
  end.

(** The CORS stage does not refuse the request. *)
Definition origin_allowed (cfg : Config.config) (req : request) : bool :=
  match check_origin (corsOptions (Config.corsOrigins cfg)) req with
  | Allow => true
  | Deny _ => false
  end.

Definition is_options (req : request) : bool := method_eqb (req_method req) OPTIONS.

(** The request gets behind the CORS stage: the body parsers and the CORS
    stage call [next()]. *)
Definition passes_cors (cfg : Config.config) (req : request) : bool :=
  body_accepted req && origin_allowed cfg req && negb (is_options req).

(** The limiter is mounted on the request's path. *)
Definition under_api (req : request) : bool :=
  mount_matches (Some "/api") (req_path req).

(** The request is one the limiter counts: it gets behind the CORS stage
    and its path is under /api. *)
Definition reaches_limiter (cfg : Config.config) (req : request) : bool :=
  passes_cors cfg req && under_api req.

(** The limiter's bucket of the request's client has room at time [t]. *)
Definition has_room (st : gmap string bucket) (t : Z) (req : request) : bool :=
  totalHits (current_bucket apiLimiterOptions
               {| store := st; now := t; out_headers := [] |} (req_ip req))
  <? max apiLimiterOptions.

(** The error the chain in front of the limiter raises for the request. *)
Definition raised (cfg : Config.config) (req : request) : option error :=
  match parse_body MediaJson limit_1mb req with
  | Some e => Some e
  | None =>
      match parse_body MediaUrlencoded limit_1mb req with
      | Some e => Some e
      | None =>
          match check_origin (corsOptions (Config.corsOrigins cfg)) req with
          | Deny e => Some e
          | Allow => None
          end
      end
  end.

End Server.

(** ** Start and graceful shutdown *)

Module Shutdown.

Inductive signal : Type := SIGINT | SIGTERM | SIGHUP | SIGUSR2.

(** The signals [process.on] registers a listener for. *)
Definition handled (s : signal) : bool :=
  match s with
  | SIGINT | SIGTERM => true
  | _ => false
  end.

(** What the logger is called with. *)
Inductive log_entry : Type :=
  | WarnShutdownStart (s : signal)    (* "Graceful shutdown start" *)
  | ErrorClosing (err : string)       (* "Error closing server" *)
  | WarnClosed                        (* "HTTP server closed. Bye" *)
  | ErrorForcing.                     (* "Forcing shutdown" *)

(** A timer made by [setTimeout]; the only callback given to it in the
    module is the watchdog's.  [ref] is false once [unref()] was called:
    such a timer does not keep the event loop running. *)
Record timer : Type := {
  deadline : Z;
  ref : bool
}.

(** The process: the clock in milliseconds, whether the server accepts
    connections, how many callbacks [server.close] holds, the timers, the
    log, the exit code once [process.exit] was called, and the signal
    that ended the process by its default action, if one did. *)
Record proc : Type := {
  clock : Z;
  listening : bool;
  close_pending : nat;
  timers : list timer;
  log : list log_entry;
  exit_code : option Z;
  killed_by : option signal
}.

(** The process after [app.listen]. *)
Definition running (t0 : Z) : proc :=
  {| clock := t0; listening := true; close_pending := 0; timers := [];
     log := []; exit_code := None; killed_by := None |}.

(** The process is over: it called [process.exit], or a signal ended it. *)
Definition ended (p : proc) : bool :=
  match exit_code p, killed_by p with
  | None, None => false
  | _, _ => true
  end.

(** A statement runs only while the process is not over: [process.exit]
    does not return. *)
Definition stmt (f : proc -> proc) (p : proc) : proc :=
  if ended p then p else f p.

Definition process_exit (code : Z) : proc -> proc :=
  stmt (fun p => {| clock := clock p; listening := listening p;
                    close_pending := close_pending p; timers := timers p;
                    log := log p; exit_code := Some code;
                    killed_by := killed_by p |}).

Definition logger (e : log_entry) : proc -> proc :=
  stmt (fun p => {| clock := clock p; listening := listening p;
                    close_pending := close_pending p; timers := timers p;
                    log := log p ++ [e]; exit_code := exit_code p;
                    killed_by := killed_by p |}).

(** [server.close(cb)]: no new connection is accepted, and [cb] waits for
    the open ones to end. *)
Definition server_close : proc -> proc :=
  stmt (fun p => {| clock := clock p; listening := false;
                    close_pending := S (close_pending p); timers := timers p;
                    log := log p; exit_code := exit_code p;
                    killed_by := killed_by p |}).

(** [setTimeout(watchdog, ms).unref()] *)
Definition setTimeout_unref (ms : Z) : proc -> proc :=
  stmt (fun p => {| clock := clock p; listening := listening p;
                    close_pending := close_pending p;
                    timers := timers p ++ [{| deadline := (clock p + ms)%Z; ref := false |}];
                    log := log p; exit_code := exit_code p;
                    killed_by := killed_by p |}).

Definition watchdog_ms : Z := 10000.

(** [shutdown(signal)] *)
Definition shutdown (s : signal) (p : proc) : proc :=
  setTimeout_unref watchdog_ms (server_close (logger (WarnShutdownStart s) p)).

(** The callback given to [server.close]. *)
Definition close_callback (err : option string) (p : proc) : proc :=
  let p1 := match err with
            | Some e => process_exit 1 (logger (ErrorClosing e) p)
            | None => p
            end in
  process_exit 0 (logger WarnClosed p1).

(** The callback given to [setTimeout]. *)
Definition watchdog (p : proc) : proc :=
  process_exit 1 (logger ErrorForcing p).

(** The default action of a signal that has no listener: the process is
    ended, and none of its code runs. *)
Definition default_action (s : signal) : proc -> proc :=
  stmt (fun p => {| clock := clock p; listening := listening p;
                    close_pending := close_pending p; timers := timers p;
                    log := log p; exit_code := exit_code p;
                    killed_by := Some s |}).

(** What the runtime does to the process: deliver a signal, report that
    the server has closed (with the error, if any, it passes to the
    callback), fire a timer that is due, or let time pass. *)
Inductive event : Type :=
  | Signal (s : signal)
  | Closed (err : option string)
  | Fire
  | Tick (dt : Z).

Definition due (p : proc) (t : timer) : bool := (deadline t <=? clock p)%Z.

(** One step of the runtime; [None] when the event cannot happen: the
    process is over, no [close] callback is registered, or no timer is
    due.  A timer never fires before its deadline; how long after it the
    event loop gets to it is not fixed. *)
Definition step (p : proc) (ev : event) : option proc :=
  if ended p then None
  else
    match ev with
    | Signal s => if handled s then Some (shutdown s p) else Some (default_action s p)
    | Closed err =>
        match close_pending p with
        | O => None
        | S _ => Some (close_callback err p)
        end
    | Fire => if existsb (due p) (timers p) then Some (watchdog p) else None
    | Tick dt =>
        if (0 <? dt)%Z
        then Some {| clock := (clock p + dt)%Z; listening := listening p;
                     close_pending := close_pending p; timers := timers p;
                     log := log p; exit_code := exit_code p;
                     killed_by := killed_by p |}
        else None
    end.

Fixpoint run (p : proc) (evs : list event) : option proc :=
  match evs with
  | [] => Some p
  | ev :: rest =>
      match step p ev with
      | Some p' => run p' rest
      | None => None
      end
  end.

(** The event loop has something to wait for: the listening server, the
    connections a pending [close] waits for, or a timer that was not
    unref'd. *)
Definition event_loop_alive (p : proc) : bool :=
  listening p || (0 <? close_pending p)%nat || existsb ref (timers p).

(** The process is draining after a signal at [t0]: it is not over, the
    server is closed to new connections, a [close] callback is pending,
    the watchdog of the first signal is the first timer, and no timer is
    due earlier or ref'd. *)
Definition draining (t0 : Z) (p : proc) : Prop :=
  ended p = false /\ listening p = false /\ (1 <= close_pending p)%nat /\
  (t0 <= clock p)%Z /\
  (exists rest, timers p = {| deadline := (t0 + watchdog_ms)%Z; ref := false |} :: rest) /\
  Forall (fun t => ref t = false /\ (t0 + watchdog_ms <= deadline t)%Z) (timers p).

(** The event [ev] ended the process with [code] at time [clk]. *)
Definition exit_by (t0 : Z) (ev : event) (code : Z) (clk : Z) : Prop :=
  match ev with
  | Closed None => code = 0%Z
  | Closed (Some _) => code = 1%Z
  | Fire => code = 1%Z /\ (t0 + watchdog_ms <= clk)%Z
  | Signal _ | Tick _ => False
  end.

End Shutdown.

(** ** Sample configurations and requests *)

Module Samples.
Import Http.

(** One hundred and one requests to /api/hello from one client at the
    same time, each from an origin that is not allowed. *)
Definition refused_burst : list (Z * request) :=
  repeat (0%Z, {| req_method := GET; req_path := "/api/hello";
                  req_origin := Some "https://evil.example";
                  req_request_id := None; req_ip := "203.0.113.7";
                  req_payload := None |}) 101.

(** A request to /api/hello from the allowed origin. *)
Definition hello : request :=
  {| req_method := GET; req_path := "/api/hello";
     req_origin := Some "https://a.example";
     req_request_id := None; req_ip := "203.0.113.7"; req_payload := None |}.

(** One hundred and one of them at the same time. *)
Definition allowed_burst : list (Z * request) := repeat (0%Z, hello) 101.

(** No variable set. *)
Definition defaults : Config.config := Config.load ∅.

(** One allowed origin. *)
Definition allow_a : Config.config :=
  Config.load {[ "CORS_ORIGINS" := "https://a.example" ]}.

(** One allowed origin, in production. *)
Definition allow_a_prod : Config.config :=
  Config.load (<[ "NODE_ENV" := "production" ]> {[ "CORS_ORIGINS" := "https://a.example" ]}).

(** A request without body from one client. *)
Definition request_of (m : method) (path : string) (o : option string) : request :=
  {| req_method := m; req_path := path; req_origin := o;
     req_request_id := None; req_ip := "203.0.113.7"; req_payload := None |}.

Definition evil : option string := Some "https://evil.example".

End Samples.

(** ** Notions for stating further properties *)

Module Notions.
Import Http Server.

(** A decimal digit. *)
Definition is_digit (c : ascii) : bool :=
  let n := N_of_ascii c in (48 <=? n) && (n <=? 57).

(** The number a run of decimal digits writes. *)
Fixpoint decimal_value_from (acc : N) (s : string) : N :=
  match s with
  | EmptyString => acc
  | String c r => decimal_value_from (10 * acc + (N_of_ascii c - 48)) r
  end.

Definition decimal_value (s : string) : N := decimal_value_from 0 s.

(** No bucket of the store resets later than one window after [t]. *)
Definition resets_within (t : Z) (st : gmap string bucket) : Prop :=
  forall ip b, st !! ip = Some b ->
    (resetTime b <= t + windowMs apiLimiterOptions)%Z.

(** The body of the error handler that tells nothing about the error. *)
Definition generic_error_body : body :=
  Json (JObject [("ok", JBool false); ("error", JString "Internal Server Error")]).

(** The severity of a pino level name. *)
Definition severity (level : string) : nat :=
  if String.eqb level "error" then 2
  else if String.eqb level "warn" then 1
  else 0.

(** The request without its body. *)
Definition without_body (req : request) : request :=
  {| req_method := req_method req; req_path := req_path req;
     req_origin := req_origin req; req_request_id := req_request_id req;
     req_ip := req_ip req; req_payload := None |}.

(** A POST to /api/hello with a JSON body of the given length. *)
Definition post_json (len : N) (err : option parse_failure) : request :=
  {| req_method := POST; req_path := "/api/hello"; req_origin := None;
     req_request_id := None; req_ip := "203.0.113.7";
     req_payload := Some {| media_type := MediaJson; byte_length := len;
                            parse_error := err |} |}.

(** The log entry tells that a shutdown started. *)
Definition is_start (e : Shutdown.log_entry) : Prop :=
  exists s, e = Shutdown.WarnShutdownStart s.

(** The process is not over, has logged nothing but shutdown starts,
    and has logged one if a [close] callback or a timer is pending. *)
Definition log_before_exit (q : Shutdown.proc) : Prop :=
  Shutdown.ended q = false /\ Forall is_start (Shutdown.log q) /\
  ((0 < Shutdown.close_pending q)%nat \/ Shutdown.timers q <> [] -> Shutdown.log q <> []).


(** The limiter counts the request, served at its time, for client [a]:
    it gets behind the CORS stage, its path is under /api and it comes
    from [a]. *)
Definition counted_for (cfg : Config.config) (a : string) (tr : Z * request) : bool :=
  reaches_limiter cfg tr.2 && String.eqb (req_ip tr.2) a.

(** How many of the first [i] requests are counted for client [a]. *)
Definition counted_before (cfg : Config.config) (a : string)
                          (reqs : list (Z * request)) (i : nat) : nat :=
  length (List.filter (counted_for cfg a) (take i reqs)).

(** The name of a legacy rate-limit header. *)
Definition is_legacy_header (name : string) : bool :=
  String.prefix "X-RateLimit-" name.

(** The response went on to the routes: a route or the 404 middleware
    answered it. *)
Definition went_on (r : response) : Prop :=
  (status r = 200%Z \/ status r = 404%Z) /\
  (is_route (sent_by r) = true \/ sent_by r = ByNotFound).

(** A request whose [x-request-id] header is the empty string. *)
Definition empty_id_request : request :=
  {| req_method := GET; req_path := "/"; req_origin := None;
     req_request_id := Some ""; req_ip := "::1"; req_payload := None |}.


(** [pieces] are the entries of [v] between its commas: there is at
    least one, none holds a comma, and joined with commas they give [v]
    back. *)
Definition entries_of (v : string) (pieces : list string) : Prop :=
  pieces <> [] /\ Forall (fun piece => JS.has_char JS.comma piece = false) pieces /\
  JS.join JS.comma pieces = v.

(** [t] is [piece] without the white space at its two ends. *)
Definition trimmed_of (piece t : string) : Prop :=
  exists pre post, piece = (pre ++ t ++ post)%string /\
    JS.all_chars JS.is_ws pre = true /\ JS.all_chars JS.is_ws post = true /\
    (forall c, JS.head_char t = Some c -> JS.is_ws c = false) /\
    (forall c, JS.last_char t = Some c -> JS.is_ws c = false).


End Notions.

(** * Properties *)

(** ** Strings *)

Section StringFacts.

Local Open Scope string_scope.

Lemma append_cons c a b : String c a ++ b = String c (a ++ b).
Proof. reflexivity. Qed.

Lemma append_empty b : "" ++ b = b.
Proof. reflexivity. Qed.

(** [simpl] leaves [String.append] alone; these two equations push it
    through the constructors. *)
Ltac sapp := rewrite ?append_cons, ?append_empty in *.

Lemma trim_start_ws s : JS.all_chars JS.is_ws s = true -> JS.trim_start s = "".
Proof.
  induction s as [|c r IH]; simpl; [reflexivity|].
  intros H. apply andb_true_iff in H as [Hc Hr]. rewrite Hc. auto.
Qed.

Lemma trim_end_ws s : JS.all_chars JS.is_ws s = true -> JS.trim_end s = "".
Proof.
  induction s as [|c r IH]; simpl; [reflexivity|].
  intros H. apply andb_true_iff in H as [Hc Hr]. rewrite (IH Hr), Hc. reflexivity.
Qed.

Lemma trim_ws s : JS.all_chars JS.is_ws s = true -> JS.trim s = "".
Proof. intros H. unfold JS.trim. rewrite (trim_start_ws s H). reflexivity. Qed.

Lemma trim_end_empty s : JS.trim_end s = "" -> JS.all_chars JS.is_ws s = true.
Proof.
  induction s as [|c r IH]; simpl; [reflexivity|].
  destruct (JS.trim_end r) eqn:E.
  - destruct (JS.is_ws c); [auto | discriminate].
  - discriminate.
Qed.

Lemma trim_start_empty s : JS.trim_start s = "" -> JS.all_chars JS.is_ws s = true.
Proof.
  induction s as [|c r IH]; simpl; [reflexivity|].
  destruct (JS.is_ws c); [auto | discriminate].
Qed.

Lemma all_chars_app p a b :
  JS.all_chars p (a ++ b) = JS.all_chars p a && JS.all_chars p b.
Proof.
  induction a as [|c r IH]; sapp; simpl; [reflexivity|].
  rewrite IH. apply andb_assoc.
Qed.

(** [trimStart] removes a run of white space at the front, and what is
    left does not start with white space. *)
Lemma trim_start_spec s :
  exists pre, s = pre ++ JS.trim_start s /\ JS.all_chars JS.is_ws pre = true /\
              forall c, JS.head_char (JS.trim_start s) = Some c -> JS.is_ws c = false.
Proof.
  induction s as [|c r (pre & E & W & Hd)]; simpl.
  - exists "". repeat split. discriminate.
  - destruct (JS.is_ws c) eqn:Hc.
    + exists (String c pre). sapp. simpl. rewrite Hc, W.
      repeat split; [congruence | exact Hd].
    + exists "". repeat split. simpl. intros ? [= <-]. exact Hc.
Qed.

(** [trimEnd] removes a run of white space at the back, and what is left
    does not end with white space. *)
Lemma trim_end_spec s :
  exists post, s = JS.trim_end s ++ post /\ JS.all_chars JS.is_ws post = true /\
               forall c, JS.last_char (JS.trim_end s) = Some c -> JS.is_ws c = false.
Proof.
  induction s as [|c r (post & E & W & Hl)]; simpl.
  - exists "". repeat split. discriminate.
  - destruct (JS.trim_end r) as [|d r'] eqn:Er.
    + destruct (JS.is_ws c) eqn:Hc.
      * exists (String c post). sapp. simpl. rewrite Hc, W.
        repeat split; [congruence | discriminate].
      * exists post. sapp. repeat split; [congruence | assumption |].
        simpl. intros ? [= <-]. exact Hc.
    + exists post. sapp. repeat split; [congruence | assumption | exact Hl].
Qed.

Lemma trim_end_head s c :
  JS.head_char s = Some c -> JS.is_ws c = false -> JS.head_char (JS.trim_end s) = Some c.
Proof.
  destruct s as [|d r]; simpl; [discriminate|].
  intros [= ->] Hc. destruct (JS.trim_end r); [rewrite Hc|]; reflexivity.
Qed.

(** [trim] keeps a middle part of the string that neither starts nor ends
    with white space, and drops white space only. *)
Lemma trim_spec s :
  exists pre post,
    s = pre ++ JS.trim s ++ post /\
    JS.all_chars JS.is_ws pre = true /\ JS.all_chars JS.is_ws post = true /\
    (forall c, JS.head_char (JS.trim s) = Some c -> JS.is_ws c = false) /\
    (forall c, JS.last_char (JS.trim s) = Some c -> JS.is_ws c = false).
Proof.
  destruct (trim_start_spec s) as (pre & E1 & W1 & Hd).
  destruct (trim_end_spec (JS.trim_start s)) as (post & E2 & W2 & Hl).
  exists pre, post. unfold JS.trim. repeat split; try assumption.
  - rewrite <- E2. exact E1.
  - intros c Hc. destruct (JS.trim_start s) as [|d r] eqn:Et; [discriminate Hc|].
    destruct (JS.is_ws d) eqn:Hd'.
    + specialize (Hd d eq_refl). congruence.
    + rewrite (trim_end_head (String d r) d eq_refl Hd') in Hc. congruence.
Qed.

Lemma split_on_nonempty sep s : JS.split_on sep s <> [].
Proof.
  destruct s as [|c r]; simpl; [discriminate|].
  destruct (Ascii.eqb c sep); [discriminate|].
  destruct (JS.split_on sep r); discriminate.
Qed.

(** Joining the pieces with the separator gives the string back. *)
Lemma join_split sep s : JS.join sep (JS.split_on sep s) = s.
Proof.
  induction s as [|c r IH]; [reflexivity|].
  simpl. destruct (Ascii.eqb_spec c sep) as [->|Hne].
  - pose proof (split_on_nonempty sep r) as Hn.
    destruct (JS.split_on sep r) as [|h t]; [contradiction|].
    simpl. simpl in IH. rewrite IH. reflexivity.
  - destruct (JS.split_on sep r) as [|h t] eqn:E.
    + exfalso. eapply split_on_nonempty; eauto.
    + simpl in *. destruct t; sapp; congruence.
Qed.

(** No piece contains the separator. *)
Lemma split_on_no_sep sep s :
  Forall (fun piece => JS.has_char sep piece = false) (JS.split_on sep s).
Proof.
  induction s as [|c r IH]; simpl.
  - repeat constructor.
  - destruct (Ascii.eqb c sep) eqn:Ec.
    + constructor; [reflexivity | exact IH].
    + destruct (JS.split_on sep r) as [|h t].
      * repeat constructor. simpl. rewrite Ec. reflexivity.
      * inversion IH; subst. constructor; [|assumption].
        simpl. rewrite Ec. assumption.
Qed.

(** The pieces of a string satisfy what all its other code units do. *)
Lemma split_on_all_chars sep p s :
  JS.all_chars (fun c => Ascii.eqb c sep || p c) s = true ->
  Forall (fun piece => JS.all_chars p piece = true) (JS.split_on sep s).
Proof.
  induction s as [|c r IH]; simpl.
  - repeat constructor.
  - intros H. apply andb_true_iff in H as [Hc Hr]. specialize (IH Hr).
    destruct (Ascii.eqb c sep) eqn:Ec.
    + constructor; [reflexivity | exact IH].
    + simpl in Hc. destruct (JS.split_on sep r) as [|h t].
      * repeat constructor. simpl. rewrite Hc. reflexivity.
      * inversion IH; subst. constructor; [|assumption].
        simpl. rewrite Hc. assumption.
Qed.

Lemma trim_has_char c s : JS.has_char c s = false -> JS.has_char c (JS.trim s) = false.
Proof.
  intros H. destruct (trim_spec s) as (pre & post & E & _).
  rewrite E in H. clear E.
  induction pre as [|d r IH]; sapp; simpl in H.
  - revert H. generalize (JS.trim s). intros t.
    induction t as [|d r IH]; sapp; simpl; [reflexivity|].
    intros H. apply orb_false_iff in H as [-> H]. simpl. auto.
  - apply orb_false_iff in H as [_ H]. auto.
Qed.

End StringFacts.

(** ** The configuration loader *)

Section ConfigFacts.

Local Open Scope string_scope.

Example split_on_sample :
  JS.split_on JS.comma "a, b ,,c" = ["a"; " b "; ""; "c"] /\
  JS.split_on JS.comma "" = [""].
Proof. split; reflexivity. Qed.

Example parseOrigins_sample :
  Config.parseOrigins (Some " https://a.example ,, http://b.example,") =
    ["https://a.example"; "http://b.example"] /\
  Config.parseOrigins (Some "") = [] /\
  Config.parseOrigins None = [].
Proof. vm_compute. repeat split. Qed.

Example string_to_number_sample :
  JS.string_to_number " 8080 " = JS.Num false 8080 0 /\
  JS.string_to_number "0x1F" = JS.Num false 31 0 /\
  JS.string_to_number "1.5e3" = JS.Num false 15 2 /\
  JS.string_to_number "-Infinity" = JS.Infinity true /\
  JS.string_to_number "   " = JS.Num false 0 0 /\
  JS.string_to_number "80a" = JS.NaN /\
  JS.string_to_number "8 0" = JS.NaN /\
  JS.string_to_number "." = JS.NaN /\
  JS.string_to_number "abc" = JS.NaN.
Proof. vm_compute. repeat split. Qed.

Example load_sample :
  Config.load {[ "PORT" := "8080" ]} =
  {| Config.env := "development"; Config.port := JS.Num false 8080 0;
     Config.corsOrigins := []; Config.trustProxy := false; Config.baseUrl := None |}.
Proof. vm_compute. reflexivity. Qed.

Lemma parseOrigins_unfold s :
  Config.parseOrigins (Some s) =
  List.filter JS.truthy (List.map JS.trim (JS.split_on JS.comma s)).
Proof. destruct s; reflexivity. Qed.

(** Every entry of the parsed list is a trimmed piece of the value: it is
    not empty, holds no comma, and neither starts nor ends with white
    space. *)
Lemma parseOrigins_entries v o :
  In o (Config.parseOrigins v) ->
  o <> "" /\ JS.has_char JS.comma o = false /\
  (forall c, JS.head_char o = Some c -> JS.is_ws c = false) /\
  (forall c, JS.last_char o = Some c -> JS.is_ws c = false) /\
  exists s piece, v = Some s /\ In piece (JS.split_on JS.comma s) /\ o = JS.trim piece.
Proof.
  destruct v as [s|]; [|intros []].
  rewrite parseOrigins_unfold. intros H.
  apply filter_In in H as [H Ht]. apply in_map_iff in H as (piece & <- & Hin).
  destruct (trim_spec piece) as (pre & post & _ & _ & _ & Hh & Hl).
  repeat split; try assumption.
  - intros E. rewrite E in Ht. discriminate.
  - apply trim_has_char.
    pose proof (split_on_no_sep JS.comma s) as Hf.
    rewrite Forall_forall in Hf. apply Hf. apply list_elem_of_In. exact Hin.
  - exists s, piece. auto.
Qed.

(** C8: the allow-list the loader builds from CORS_ORIGINS is empty when
    the variable is unset; when it is set, the value is cut at its commas
    into entries that hold none, each entry loses the white space at its
    two ends and nothing else, and the list is what is left of these, in
    order, once the empty ones are dropped. *)
Theorem corsOrigins_split_trim_drop (e : Config.process_env) :
  (e !! "CORS_ORIGINS" = None -> Config.corsOrigins (Config.load e) = []) /\
  (forall v, e !! "CORS_ORIGINS" = Some v ->
     exists pieces trimmed,
       Notions.entries_of v pieces /\
       Forall2 Notions.trimmed_of pieces trimmed /\
       Config.corsOrigins (Config.load e) =
         List.filter (fun t => negb (String.eqb t "")) trimmed).
Proof.
  unfold Config.load; simpl. split.
  - intros ->. reflexivity.
  - intros v ->. rewrite parseOrigins_unfold.
    exists (JS.split_on JS.comma v), (List.map JS.trim (JS.split_on JS.comma v)).
    split; [|split].
    + split; [apply split_on_nonempty|].
      split; [apply split_on_no_sep | apply join_split].
    + induction (JS.split_on JS.comma v) as [|piece l IH]; simpl; constructor;
        [apply trim_spec | exact IH].
    + apply List.filter_ext. intros t. destruct t; reflexivity.
Qed.

Lemma corsOrigins_split_trim_drop_witness :
  exists pieces trimmed,
    Notions.entries_of " https://a.example ,, http://b.example," pieces /\
    Forall2 Notions.trimmed_of pieces trimmed /\
    Config.corsOrigins
      (Config.load {[ "CORS_ORIGINS" := " https://a.example ,, http://b.example," ]}) =
      List.filter (fun t => negb (String.eqb t "")) trimmed.
Proof.
  apply (proj2 (corsOrigins_split_trim_drop
                  {[ "CORS_ORIGINS" := " https://a.example ,, http://b.example," ]})).
  vm_compute. reflexivity.
Defined.

(** A value made of commas and white space only parses to no origin. *)
Lemma parseOrigins_blank s :
  JS.all_chars (fun c => Ascii.eqb c JS.comma || JS.is_ws c) s = true ->
  Config.parseOrigins (Some s) = [].
Proof.
  intros H. rewrite parseOrigins_unfold.
  pose proof (split_on_all_chars JS.comma JS.is_ws s H) as Hf.
  induction Hf as [|piece rest Hp _ IH]; [reflexivity|].
  simpl. rewrite (trim_ws piece Hp). exact IH.
Qed.

(** The loader reads each variable on its own: without CORS_ORIGINS the
    other fields are the same. *)
Lemma load_delete_cors (e : Config.process_env) :
  Config.corsOrigins (Config.load e) = [] ->
  Config.load e = Config.load (delete "CORS_ORIGINS" e).
Proof.
  intros H. unfold Config.load in *. simpl in H.
  rewrite lookup_delete_eq.
  repeat (rewrite lookup_delete_ne by discriminate).
  rewrite H. reflexivity.
Qed.

(** An invalid port is not an error of the loader: the field is NaN. *)
Lemma load_port_invalid s :
  JS.is_numeric_string s = false -> Config.load_port (Some s) = JS.NaN.
Proof.
  unfold JS.is_numeric_string, Config.load_port, JS.or_operand, JS.string_to_number.
  destruct s as [|c r]; [discriminate|]. simpl JS.truthy. cbv iota.
  destruct (JS.trim (String c r)); [discriminate|].
  destruct (JS.numeric_literal _); [discriminate | reflexivity].
Qed.

(** C7, as the code has it: a PORT that is not a numeric string makes the
    loader's port NaN, without any failure; a PORT that is unset or empty
    gives the default 3000. *)
Theorem port_coercion (e : Config.process_env) :
  (forall s, e !! "PORT" = Some s -> JS.is_numeric_string s = false ->
             Config.port (Config.load e) = JS.NaN) /\
  (e !! "PORT" = None \/ e !! "PORT" = Some "" ->
   Config.port (Config.load e) = JS.Num false 3000 0).
Proof.
  unfold Config.load; simpl. split.
  - intros s -> Hs. apply load_port_invalid, Hs.
  - intros [-> | ->]; reflexivity.
Qed.

Lemma port_coercion_witness :
  Config.port (Config.load {[ "PORT" := "80a" ]}) = JS.NaN /\
  Config.port (Config.load (∅ : Config.process_env)) = JS.Num false 3000 0.
Proof.
  split.
  - apply (proj1 (port_coercion {[ "PORT" := "80a" ]}) "80a"); reflexivity.
  - apply (proj2 (port_coercion ∅)). left. reflexivity.
Defined.

(** C7 as stated fails: with PORT unset the port is 3000, not NaN. *)
Lemma port_missing_is_default :
  (∅ : Config.process_env) !! "PORT" = None /\
  Config.port (Config.load ∅) = JS.Num false 3000 0 /\
  JS.is_NaN (Config.port (Config.load ∅)) = false.
Proof. repeat split. Qed.

End ConfigFacts.

(** ** The middleware chain *)

Section ServerFacts.

Import Http Server Notions.
Local Open Scope string_scope.

Example route_matching_sample :
  route_path_matches "/livez" "/livez" = true /\
  route_path_matches "/livez" "/LiveZ/" = true /\
  route_path_matches "/livez" "/livez/x" = false /\
  route_path_matches "/" "/" = true /\
  mount_matches (Some "/api") "/api/hello" = true /\
  mount_matches (Some "/api") "/api" = true /\
  mount_matches (Some "/api") "/apix" = false /\
  handles_method GET HEAD = true /\
  handles_method GET POST = false.
Proof. vm_compute. repeat split. Qed.

Example serve_sample :
  (serve Samples.defaults ∅ 5 (Samples.request_of GET "/api/hello" None)).1 =
  {| status := 200;
     content := Json (JObject [("ok", JBool true);
                               ("message", JString "Hello from Express (prod-ready)!");
                               ("time", JDate 5)]);
     headers := [("RateLimit-Policy", "100;w=600"); ("RateLimit-Limit", "100");
                 ("RateLimit-Remaining", "99"); ("RateLimit-Reset", "600")];
     sent_by := ByRoute "/api/hello" |}.
Proof. vm_compute. reflexivity. Qed.

Example customLogLevel_sample :
  customLogLevel 200 None = "info" /\ customLogLevel 404 None = "warn" /\
  customLogLevel 503 None = "error" /\
  customLogLevel 200 (Some (Error "x")) = "error".
Proof. vm_compute. repeat split. Qed.

(** *** The router, one layer at a time *)

Lemma dispatch_use_next mw m rest req c c' :
  mount_matches m (req_path req) = true -> mw req c = Next c' ->
  dispatch (Use m mw :: rest) None req c = dispatch rest None req c'.
Proof. intros Hm H. cbn [dispatch]. rewrite Hm, H. reflexivity. Qed.

Lemma dispatch_use_throw mw m rest req c c' e :
  mount_matches m (req_path req) = true -> mw req c = Throw e c' ->
  dispatch (Use m mw :: rest) None req c = dispatch rest (Some e) req c'.
Proof. intros Hm H. cbn [dispatch]. rewrite Hm, H. reflexivity. Qed.

Lemma dispatch_use_send mw m rest req c c' r :
  mount_matches m (req_path req) = true -> mw req c = Send r c' ->
  valid_status (status r) = true ->
  dispatch (Use m mw :: rest) None req c = (r, c').
Proof. intros Hm H Hv. cbn [dispatch]. rewrite Hm, H, Hv. reflexivity. Qed.

Lemma dispatch_use_skip mw m rest req c :
  mount_matches m (req_path req) = false ->
  dispatch (Use m mw :: rest) None req c = dispatch rest None req c.
Proof. intros Hm. cbn [dispatch]. rewrite Hm. reflexivity. Qed.

Lemma dispatch_route_skip m p h rest req c :
  route_path_matches p (req_path req) && handles_method m (req_method req) = false ->
  dispatch (Route m p h :: rest) None req c = dispatch rest None req c.
Proof. intros Hm. cbn [dispatch]. rewrite Hm. reflexivity. Qed.

Lemma dispatch_route_send m p h rest req c c' r :
  route_path_matches p (req_path req) && handles_method m (req_method req) = true ->
  h req c = Send r c' ->
  valid_status (status r) = true ->
  dispatch (Route m p h :: rest) None req c = (r, c').
Proof. intros Hm H Hv. cbn [dispatch]. rewrite Hm, H, Hv. reflexivity. Qed.

(** The response of the error handler. *)
Lemma errorHandler_send cfg e req c :
  errorHandler cfg e req c =
  Send {| status := status_or_500 (err_status e);
          content := error_body (Config.env cfg) e;
          headers := out_headers c;
          sent_by := ByErrorHandler |} c.
Proof. reflexivity. Qed.

Lemma parse_body_status accepts limit req e :
  parse_body accepts limit req = Some e ->
  err_status e = Some 413%Z \/ err_status e = Some 400%Z \/ err_status e = Some 415%Z.
Proof.
  unfold parse_body. destruct (req_payload req) as [p|]; [|discriminate].
  destruct (negb _); [discriminate|].
  destruct (parse_error p) as [[msg| |msg]|];
    try (intros [= <-]; simpl; tauto);
    destruct (limit <? byte_length p)%N; intros [= <-]; simpl; tauto.
Qed.

(** The only error of the CORS stage is the one of the origin callback. *)
Lemma check_origin_deny l req e :
  check_origin (corsOptions l) req = Deny e -> e = Error "Not allowed by CORS".
Proof.
  unfold check_origin, corsOptions. destruct l as [|a l]; simpl; [discriminate|].
  unfold origin_callback. destruct (JS.or_operand (req_origin req)); [|discriminate].
  case_bool_decide; [discriminate|]. intros [= <-]. reflexivity.
Qed.

(** The errors raised in front of the routes: a refused origin has no
    status, the body parsers give 413, 400 or 415. *)
Lemma raised_status cfg req e :
  raised cfg req = Some e ->
  err_status e = None \/ err_status e = Some 413%Z \/ err_status e = Some 400%Z \/
  err_status e = Some 415%Z.
Proof.
  unfold raised.
  destruct (parse_body MediaJson limit_1mb req) as [e1|] eqn:E1.
  { intros [= <-]. right. eapply parse_body_status, E1. }
  destruct (parse_body MediaUrlencoded limit_1mb req) as [e2|] eqn:E2.
  { intros [= <-]. right. eapply parse_body_status, E2. }
  destruct (check_origin _ req) as [|e3] eqn:E3; [discriminate|].
  intros [= <-]. left. rewrite (check_origin_deny _ _ _ E3). reflexivity.
Qed.

(** After [next(err)] every layer is skipped up to the error handler. *)
Lemma dispatch_app_error cfg k e req c :
  (k <= 12)%nat ->
  valid_status (status_or_500 (err_status e)) = true ->
  dispatch (skipn k (app cfg)) (Some e) req c =
  ({| status := status_or_500 (err_status e);
      content := error_body (Config.env cfg) e;
      headers := out_headers c;
      sent_by := ByErrorHandler |}, c).
Proof.
  intros Hk Hv.
  do 13 (destruct k as [|k];
         [cbn [skipn app dispatch errorHandler send status]; rewrite Hv; reflexivity|]).
  lia.
Qed.

(** An error raised in front of the limiter is answered by the error
    handler, and the limiter's store is left as it was. *)
Lemma dispatch_raised cfg req c e :
  raised cfg req = Some e ->
  dispatch (app cfg) None req c =
  ({| status := status_or_500 (err_status e);
      content := error_body (Config.env cfg) e;
      headers := out_headers c;
      sent_by := ByErrorHandler |}, c).
Proof.
  intros H.
  assert (Hv : valid_status (status_or_500 (err_status e)) = true)
    by (destruct (raised_status _ _ _ H) as [-> | [-> | [-> | ->]]]; reflexivity).
  unfold raised in H. unfold app.
  do 3 (rewrite (dispatch_use_next _ None _ req c c) by reflexivity).
  destruct (parse_body MediaJson limit_1mb req) as [e1|] eqn:E1.
  - injection H as ->.
    rewrite (dispatch_use_throw _ None _ req c c e)
      by (try reflexivity; unfold body_parser; rewrite E1; reflexivity).
    apply (dispatch_app_error cfg 4); [lia | exact Hv].
  - rewrite (dispatch_use_next _ None _ req c c)
      by (try reflexivity; unfold body_parser; rewrite E1; reflexivity).
    destruct (parse_body MediaUrlencoded limit_1mb req) as [e2|] eqn:E2.
    + injection H as ->.
      rewrite (dispatch_use_throw _ None _ req c c e)
        by (try reflexivity; unfold body_parser; rewrite E2; reflexivity).
      apply (dispatch_app_error cfg 5); [lia | exact Hv].
    + rewrite (dispatch_use_next _ None _ req c c)
        by (try reflexivity; unfold body_parser; rewrite E2; reflexivity).
      destruct (check_origin _ req) as [|e3] eqn:E3; [discriminate|].
      injection H as ->.
      rewrite (dispatch_use_throw _ None _ req c c e)
        by (try reflexivity; unfold cors; rewrite E3; reflexivity).
      apply (dispatch_app_error cfg 6); [lia | exact Hv].
Qed.

(** A request the body parsers and the CORS stage let through reaches the
    limiter's mount point with the response untouched. *)
Lemma dispatch_passes_cors cfg req c :
  passes_cors cfg req = true ->
  dispatch (app cfg) None req c = dispatch (skipn 6 (app cfg)) None req c.
Proof.
  unfold passes_cors, body_accepted, origin_allowed, is_options. intros H.
  apply andb_true_iff in H as [H Ho]. apply andb_true_iff in H as [Hb Hc].
  destruct (parse_body MediaJson limit_1mb req) eqn:E1; [discriminate|].
  destruct (parse_body MediaUrlencoded limit_1mb req) eqn:E2; [discriminate|].
  destruct (check_origin _ req) eqn:E3; [|discriminate].
  unfold app.
  do 3 (rewrite (dispatch_use_next _ None _ req c c) by reflexivity).
  rewrite (dispatch_use_next _ None _ req c c)
    by (try reflexivity; unfold body_parser; rewrite E1; reflexivity).
  rewrite (dispatch_use_next _ None _ req c c)
    by (try reflexivity; unfold body_parser; rewrite E2; reflexivity).
  rewrite (dispatch_use_next _ None _ req c c); [reflexivity | reflexivity |].
  unfold cors. rewrite E3. destruct (req_method req); try reflexivity. discriminate.
Qed.

(** An OPTIONS request that is not refused is answered by the CORS stage
    itself, with the preflight's 204. *)
Lemma dispatch_preflight cfg req c :
  body_accepted req = true -> origin_allowed cfg req = true ->
  req_method req = OPTIONS ->
  dispatch (app cfg) None req c =
  ({| status := 204; content := NoBody; headers := out_headers c; sent_by := ByCors |}, c).
Proof.
  unfold body_accepted, origin_allowed. intros Hb Hc Hm.
  destruct (parse_body MediaJson limit_1mb req) eqn:E1; [discriminate|].
  destruct (parse_body MediaUrlencoded limit_1mb req) eqn:E2; [discriminate|].
  destruct (check_origin _ req) eqn:E3; [|discriminate].
  unfold app.
  do 3 (rewrite (dispatch_use_next _ None _ req c c) by reflexivity).
  rewrite (dispatch_use_next _ None _ req c c)
    by (try reflexivity; unfold body_parser; rewrite E1; reflexivity).
  rewrite (dispatch_use_next _ None _ req c c)
    by (try reflexivity; unfold body_parser; rewrite E2; reflexivity).
  erewrite dispatch_use_send;
    [reflexivity | reflexivity | unfold cors; rewrite E3, Hm; reflexivity | reflexivity].
Qed.

(** The limiter's answer: the request is counted in its client's
    bucket and the headers are set; with no room left the answer is 429. *)
Lemma apiLimiter_cases req c :
  let b := current_bucket apiLimiterOptions c (req_ip req) in
  let b' := {| totalHits := totalHits b + 1; resetTime := resetTime b |} in
  let c' := {| store := <[req_ip req := b']> (store c);
               now := now c;
               out_headers := out_headers c ++ rate_limit_headers apiLimiterOptions c b' |} in
  let c429 := {| store := store c'; now := now c';
                 out_headers := out_headers c' ++ retry_after_header apiLimiterOptions c b' |} in
  apiLimiter req c =
    if (totalHits b <? max apiLimiterOptions)%N
    then Next c'
    else Send {| status := 429;
                 content := Text "Too many requests, please try again later.";
                 headers := out_headers c429;
                 sent_by := ByLimiter |} c429.
Proof.
  intros b b' c' c429. unfold apiLimiter, rateLimit. fold b. fold b'. fold c'. fold c429.
  replace (max apiLimiterOptions <? totalHits b')%N
    with (negb (totalHits b <? max apiLimiterOptions)%N).
  - destruct (totalHits b <? max apiLimiterOptions)%N; reflexivity.
  - simpl totalHits. generalize (totalHits b), (max apiLimiterOptions). intros x y.
    destruct (N.ltb_spec x y), (N.ltb_spec y (x + 1)); simpl; try reflexivity; lia.
Qed.

(** Behind the CORS stage: the limiter where it is mounted, then the
    routes. *)
Lemma dispatch_limiter cfg req c :
  dispatch (skipn 6 (app cfg)) None req c =
    if under_api req
    then match apiLimiter req c with
         | Next c' => dispatch (behind_limiter cfg) None req c'
         | Throw e c' => dispatch (behind_limiter cfg) (Some e) req c'
         | Send r c' =>
             if valid_status (status r) then (r, c')
             else dispatch (behind_limiter cfg) (Some (RangeError (status r))) req c'
         end
    else dispatch (behind_limiter cfg) None req c.
Proof. reflexivity. Qed.

(** The routes, in the order of their registration, then the 404
    middleware. *)
Lemma dispatch_routes cfg req c :
  let hit p := route_path_matches p (req_path req) && handles_method GET (req_method req) in
  let answer who st b :=
    ({| status := st; content := b; headers := out_headers c; sent_by := who |}, c) in
  dispatch (behind_limiter cfg) None req c =
    if hit "/livez" then answer (ByRoute "/livez") 200%Z (Text "OK")
    else if hit "/readyz" then answer (ByRoute "/readyz") 200%Z (Text "READY")
    else if hit "/api/hello" then
      match api_hello req c with Send r c' => (r, c') | _ => answer ByFinalHandler 0%Z NoBody end
    else if hit "/" then
      match root cfg req c with Send r c' => (r, c') | _ => answer ByFinalHandler 0%Z NoBody end
    else answer ByNotFound 404%Z not_found_body.
Proof.
  intros hit answer. unfold behind_limiter, app. cbn [skipn dispatch].
  subst hit. cbv beta.
  destruct (route_path_matches "/livez" _ && _); [reflexivity|].
  destruct (route_path_matches "/readyz" _ && _); [reflexivity|].
  destruct (route_path_matches "/api/hello" _ && _); [reflexivity|].
  destruct (route_path_matches "/" _ && _); reflexivity.
Qed.

Lemma route_matches_false req :
  route_matches req = false ->
  forall p, In p ["/livez"; "/readyz"; "/api/hello"; "/"] ->
  route_path_matches p (req_path req) && handles_method GET (req_method req) = false.
Proof.
  unfold route_matches, wired_routes. cbn [existsb fst snd]. intros H.
  repeat (apply orb_false_iff in H as [? H]).
  intros p [<-|[<-|[<-|[<-|[]]]]]; assumption.
Qed.

(** With no route for the request the 404 middleware answers. *)
Lemma dispatch_no_route cfg req c :
  route_matches req = false ->
  dispatch (behind_limiter cfg) None req c =
  ({| status := 404; content := not_found_body;
      headers := out_headers c; sent_by := ByNotFound |}, c).
Proof.
  intros H. pose proof (route_matches_false req H) as Hp.
  rewrite dispatch_routes. cbv zeta beta.
  rewrite !Hp by (simpl; tauto). reflexivity.
Qed.

(** *** When the chain in front of the routes lets a request through *)

Lemma origin_allowed_iff cfg req :
  origin_allowed cfg req = true <->
  Config.corsOrigins cfg = [] \/ req_origin req = None \/ req_origin req = Some "" \/
  exists o, req_origin req = Some o /\ o ∈ Config.corsOrigins cfg.
Proof.
  unfold origin_allowed, check_origin, corsOptions.
  destruct (Config.corsOrigins cfg) as [|a l] eqn:El; simpl.
  - split; auto.
  - unfold origin_callback, JS.or_operand.
    destruct (req_origin req) as [[|ch o]|]; simpl.
    + split; auto.
    + case_bool_decide as Hin.
      * split; eauto 6.
      * split; [discriminate|].
        intros [H|[H|[H|(o' & [= <-] & H)]]]; try discriminate. contradiction.
    + split; auto.
Qed.

Lemma body_accepted_iff req :
  body_accepted req = true <->
  match req_payload req with
  | None => True
  | Some p => media_type p = MediaOther \/
              ((byte_length p <= 1048576)%N /\ parse_error p = None)
  end.
Proof.
  unfold body_accepted, parse_body, limit_1mb.
  destruct (req_payload req) as [p|]; [|tauto].
  destruct (media_type p); simpl;
    destruct (N.ltb_spec (1024 * 1024) (byte_length p));
    destruct (parse_error p) as [[msg| |msg]|]; simpl; split; intros Hx;
    try discriminate Hx; try reflexivity; auto;
    destruct Hx as [H0|[H1 H2]]; try discriminate; lia.
Qed.

(** *** Request identifiers, errors, CORS and routes *)

(** C10 as stated fails: for a request whose [x-request-id] header is
    the empty string, [genReqId] returns [undefined] and the logging
    middleware takes that as the request's id: the request gets no
    identifier, and the counter that generates one when no [genReqId] is
    given is not used. *)
Lemma empty_request_id_gets_no_id :
  req_request_id empty_id_request = Some "" /\
  genReqId empty_id_request = None /\
  assigned_id 41 empty_id_request = (None, 41%N) /\
  reqIdGenFactory None 41 empty_id_request = (Some (IdCounter 42), 42%N).
Proof. repeat split. Qed.

(** C10, as the code has it: for an [x-request-id] header that is
    missing or the empty string [genReqId] returns [undefined], and
    since the logging middleware uses [genReqId]'s result as the request's
    id the request gets none (no identifier is generated); a header that
    is not empty is returned, and becomes the id, as it is. *)
Theorem genReqId_reuses_nonempty req n :
  (req_request_id req = Some "" \/ req_request_id req = None ->
   genReqId req = None /\ assigned_id n req = (None, n)) /\
  (forall v, req_request_id req = Some v -> v <> "" ->
   genReqId req = Some v /\ assigned_id n req = (Some (IdString v), n)).
Proof.
  unfold assigned_id, reqIdGenFactory, genReqId. split.
  - intros [-> | ->]; split; reflexivity.
  - intros v -> Hv. destruct v; [contradiction | split; reflexivity].
Qed.

Lemma genReqId_reuses_nonempty_witness :
  assigned_id 41 empty_id_request = (None, 41%N) /\
  assigned_id 41 {| req_method := GET; req_path := "/"; req_origin := None;
                    req_request_id := Some "abc-123"; req_ip := "::1";
                    req_payload := None |}
    = (Some (IdString "abc-123"), 41%N).
Proof.
  split.
  - apply (proj1 (genReqId_reuses_nonempty empty_id_request 41)). left. reflexivity.
  - apply (proj2 (genReqId_reuses_nonempty _ 41) "abc-123"); [reflexivity | discriminate].
Defined.


(** A status that is neither 0 nor between 100 and 999 cannot be
    written: the handler's [res.status(..).json(..)] throws, and Express's
    final handler answers with 500. *)
Lemma dispatch_error_handler_invalid cfg e req c s :
  err_status e = Some s -> s <> 0%Z -> valid_status s = false ->
  let r := (dispatch [UseError (errorHandler cfg)] (Some e) req c).1 in
  status r = 500%Z /\ sent_by r = ByFinalHandler.
Proof.
  intros Hs Hne Hv. cbn [dispatch errorHandler send status]. rewrite Hs.
  unfold status_or_500. destruct (Z.eqb_spec s 0); [contradiction|].
  rewrite Hv. split; reflexivity.
Qed.




(** C1 as stated fails: with the allow-list [https://a.example], a
    request from [https://evil.example] is answered with status 500, which
    is not a 4xx status. *)
Lemma cors_rejection_is_500 :
  let req := Samples.request_of GET "/" Samples.evil in
  let r := fst (serve Samples.allow_a ∅ 0 req) in
  Config.corsOrigins Samples.allow_a = ["https://a.example"] /\
  req_origin req = Some "https://evil.example" /\
  status r = 500%Z /\ ~ (400 <= status r <= 499)%Z.
Proof. vm_compute. repeat split; intros [_ H]; apply H; reflexivity. Qed.

(** C1, as the code has it: with a non-empty allow-list, a request whose
    Origin header is a non-empty string outside the list is refused by the
    CORS stage with an error that carries no status; once the body parsers
    have let it through, the error handler answers it with status 500 and
    the JSON body [{ok: false, error: ..}], no route handler runs and the
    limiter does not count it.  A request without Origin header, with an
    empty one, or with one in the list is not refused: the stage calls
    [next()], or answers an OPTIONS request itself with 204. *)
Theorem cors_rejects_unlisted_origin cfg req :
  Config.corsOrigins cfg <> [] ->
  (forall o, req_origin req = Some o -> o <> "" -> o ∉ Config.corsOrigins cfg ->
     (forall c, cors (corsOptions (Config.corsOrigins cfg)) req c
                = Throw (Error "Not allowed by CORS") c) /\
     (body_accepted req = true -> forall st t,
        let r := fst (serve cfg st t req) in
        status r = 500%Z /\
        content r = Json (JObject
                      [("ok", JBool false);
                       ("error", JString (if String.eqb (Config.env cfg) "production"
                                          then "Internal Server Error"
                                          else "Not allowed by CORS"))]) /\
        sent_by r = ByErrorHandler /\
        snd (serve cfg st t req) = st)) /\
  (req_origin req = None \/ req_origin req = Some "" \/
   (exists o, req_origin req = Some o /\ o ∈ Config.corsOrigins cfg) ->
   forall c, cors (corsOptions (Config.corsOrigins cfg)) req c =
             if is_options req then send ByCors 204 NoBody c else Next c).
Proof.
  intros Hne. split.
  - intros o Ho Hoe Hnotin.
    assert (Hd : check_origin (corsOptions (Config.corsOrigins cfg)) req
                 = Deny (Error "Not allowed by CORS")).
    { unfold check_origin, corsOptions.
      destruct (Config.corsOrigins cfg) as [|a l] eqn:El; [contradiction|]. simpl.
      unfold origin_callback. rewrite Ho. destruct o as [|ch o]; [contradiction|]. simpl.
      case_bool_decide; [contradiction | reflexivity]. }
    split.
    + intros c. unfold cors. rewrite Hd. reflexivity.
    + intros Hb st t.
      assert (Hr : raised cfg req = Some (Error "Not allowed by CORS")).
      { unfold raised. unfold body_accepted in Hb.
        destruct (parse_body MediaJson limit_1mb req); [discriminate|].
        destruct (parse_body MediaUrlencoded limit_1mb req); [discriminate|].
        rewrite Hd. reflexivity. }
      unfold serve. rewrite (dispatch_raised _ _ _ _ Hr). simpl.
      repeat split. unfold error_body.
      destruct (String.eqb (Config.env cfg) "production"); reflexivity.
  - intros Hok c.
    assert (Ha : origin_allowed cfg req = true).
    { apply origin_allowed_iff. tauto. }
    unfold origin_allowed in Ha. unfold cors, is_options.
    destruct (check_origin _ req); [|discriminate].
    destruct (req_method req); reflexivity.
Qed.

Lemma cors_rejects_unlisted_origin_witness :
  let req := Samples.request_of GET "/" Samples.evil in
  status (fst (serve Samples.allow_a ∅ 0 req)) = 500%Z /\
  sent_by (fst (serve Samples.allow_a ∅ 0 req)) = ByErrorHandler.
Proof.
  intros req.
  assert (Hne : Config.corsOrigins Samples.allow_a <> []) by (vm_compute; discriminate).
  assert (Hnotin : "https://evil.example" ∉ Config.corsOrigins Samples.allow_a).
  { vm_compute. intros H. apply list_elem_of_In in H. destruct H as [H|[]]. discriminate H. }
  destruct (proj1 (cors_rejects_unlisted_origin Samples.allow_a req Hne)
              "https://evil.example" eq_refl ltac:(discriminate) Hnotin) as [_ H].
  destruct (H eq_refl ∅ 0%Z) as (H1 & _ & H3 & _). split; [exact H1 | exact H3].
Defined.


(** A HEAD request to /livez is served by the GET route, an OPTIONS
    request by the CORS stage: neither gets the 404 response. *)
Lemma livez_head_and_options :
  status (fst (serve Samples.defaults ∅ 0 (Samples.request_of HEAD "/livez" None))) = 200%Z /\
  status (fst (serve Samples.defaults ∅ 0 (Samples.request_of OPTIONS "/livez" None))) = 204%Z.
Proof. vm_compute. split; reflexivity. Qed.



(** C6 as stated fails: with the allow-list [https://a.example], a PUT
    request to /nonexistent from another origin matches no route and is
    answered with 500. *)
Lemma unmatched_refused_origin_is_500 :
  let req := Samples.request_of PUT "/nonexistent" Samples.evil in
  let r := fst (serve Samples.allow_a ∅ 0 req) in
  route_matches req = false /\ status r = 500%Z /\ status r <> 404%Z.
Proof. vm_compute. repeat split. discriminate. Qed.

(** C6, as the code has it: a request that the body parsers, the CORS
    stage and the limiter let through (it is not an OPTIONS request, and
    under /api its client's bucket has room) and that no route takes is
    answered by the 404 middleware with [{ok: false, error: "Not Found"}].
    A route takes a request when the path is its own, up to letter case
    and one trailing slash, and the method is GET or HEAD. *)
Theorem unmatched_is_404 cfg st t req :
  passes_cors cfg req = true ->
  (under_api req = true -> has_room st t req = true) ->
  route_matches req = false ->
  let r := fst (serve cfg st t req) in
  status r = 404%Z /\
  content r = Json (JObject [("ok", JBool false); ("error", JString "Not Found")]) /\
  sent_by r = ByNotFound.
Proof.
  intros Hp Hroom Hno. unfold serve.
  rewrite (dispatch_passes_cors _ _ _ Hp), dispatch_limiter.
  destruct (under_api req).
  - rewrite apiLimiter_cases. cbv zeta.
    specialize (Hroom eq_refl). unfold has_room in Hroom.
    rewrite Hroom. rewrite (dispatch_no_route _ _ _ Hno). simpl. auto.
  - rewrite (dispatch_no_route _ _ _ Hno). simpl. auto.
Qed.

(** Other answers to requests no route takes: the preflight's 204 for an
    OPTIONS request, and 429 once the client's bucket is full. *)
Lemma unmatched_other_answers :
  let full : gmap string bucket :=
    {[ "203.0.113.7" := {| totalHits := 100; resetTime := 600000 |} ]} in
  status (serve Samples.defaults ∅ 0 (Samples.request_of OPTIONS "/nonexistent" None)).1
    = 204%Z /\
  status (serve Samples.defaults full 1 (Samples.request_of GET "/api/nonexistent" None)).1
    = 429%Z.
Proof. vm_compute. split; reflexivity. Qed.

Lemma unmatched_is_404_witness :
  let req := Samples.request_of GET "/api/nonexistent" None in
  status (fst (serve Samples.defaults ∅ 0 req)) = 404%Z.
Proof.
  intros req.
  assert (Hroom : under_api req = true -> has_room ∅ 0 req = true)
    by (intros _; vm_compute; reflexivity).
  destruct (unmatched_is_404 Samples.defaults ∅ 0%Z req eq_refl Hroom eq_refl) as [H _].
  exact H.
Defined.

(** *** The rate limiter *)

(** What the routes and the 404 middleware answer: 200 or 404, with the
    headers set so far, and the state as it was. *)
Lemma dispatch_behind_limiter_shape cfg req c :
  let '(r, c') := dispatch (behind_limiter cfg) None req c in
  c' = c /\ headers r = out_headers c /\
  (status r = 200%Z \/ status r = 404%Z) /\
  (is_route (sent_by r) = true \/ sent_by r = ByNotFound).
Proof.
  rewrite dispatch_routes. cbv zeta beta.
  repeat match goal with
         | |- context [if ?b then _ else _] => destruct b
         end; simpl; auto.
Qed.

(** Every request falls in one of three cases in front of the limiter. *)
Lemma before_limiter_cases cfg req :
  (exists e, raised cfg req = Some e) \/
  (body_accepted req = true /\ origin_allowed cfg req = true /\ req_method req = OPTIONS) \/
  passes_cors cfg req = true.
Proof.
  unfold raised, passes_cors, body_accepted, origin_allowed, is_options.
  destruct (parse_body MediaJson limit_1mb req); [eauto|].
  destruct (parse_body MediaUrlencoded limit_1mb req); [eauto|].
  destruct (check_origin _ req); [|eauto].
  destruct (req_method req); simpl; auto.
Qed.

(** One request counted by the limiter. *)
Lemma serve_counted cfg st t req :
  reaches_limiter cfg req = true ->
  let c := {| store := st; now := t; out_headers := [] |} in
  let b := current_bucket apiLimiterOptions c (req_ip req) in
  let b' := {| totalHits := totalHits b + 1; resetTime := resetTime b |} in
  let r := fst (serve cfg st t req) in
  snd (serve cfg st t req) = <[req_ip req := b']> st /\
  headers r = (rate_limit_headers apiLimiterOptions c b' ++
               if has_room st t req then []
               else retry_after_header apiLimiterOptions c b')%list /\
  (if has_room st t req
   then (status r = 200%Z \/ status r = 404%Z) /\
        (is_route (sent_by r) = true \/ sent_by r = ByNotFound)
   else status r = 429%Z /\ sent_by r = ByLimiter /\
        content r = Text "Too many requests, please try again later.").
Proof.
  intros H c b b' r. subst r.
  unfold reaches_limiter in H. apply andb_true_iff in H as [Hp Hu].
  unfold serve. fold c.
  rewrite (dispatch_passes_cors _ _ _ Hp), dispatch_limiter, Hu.
  rewrite apiLimiter_cases. cbv zeta. fold b. fold b'.
  unfold has_room. fold c. fold b.
  destruct (totalHits b <? max apiLimiterOptions)%N.
  - match goal with
    | |- context [dispatch (behind_limiter cfg) None req ?c1] =>
        pose proof (dispatch_behind_limiter_shape cfg req c1) as Hs;
        destruct (dispatch (behind_limiter cfg) None req c1) as [r c']
    end.
    destruct Hs as (-> & Hh & Hst & Hby). simpl. rewrite Hh. simpl.
    rewrite app_nil_r. auto.
  - simpl. auto.
Qed.

(** A request that is not counted leaves the store alone and gets neither
    the limiter's answer nor its headers. *)
Lemma serve_not_counted cfg st t req :
  reaches_limiter cfg req = false ->
  let r := fst (serve cfg st t req) in
  snd (serve cfg st t req) = st /\ headers r = [] /\
  sent_by r <> ByLimiter /\ status r <> 429%Z.
Proof.
  intros H r. subst r. unfold serve.
  destruct (before_limiter_cases cfg req) as [[e He] | [(Hb & Ho & Hm) | Hp]].
  - rewrite (dispatch_raised _ _ _ _ He). simpl. repeat split; [discriminate|].
    destruct (raised_status _ _ _ He) as [-> | [-> | [-> | ->]]]; discriminate.
  - rewrite (dispatch_preflight _ _ _ Hb Ho Hm). simpl. repeat split; discriminate.
  - unfold reaches_limiter in H. rewrite Hp in H. simpl in H.
    rewrite (dispatch_passes_cors _ _ _ Hp), dispatch_limiter, H.
    match goal with
    | |- context [dispatch (behind_limiter cfg) None req ?c1] =>
        pose proof (dispatch_behind_limiter_shape cfg req c1) as Hs;
        destruct (dispatch (behind_limiter cfg) None req c1) as [r c']
    end.
    destruct Hs as (-> & Hh & Hst & Hby). simpl. repeat split; [exact Hh | |].
    + destruct Hby as [Hby | Hby]; intros E; rewrite E in Hby; discriminate.
    + destruct Hst as [-> | ->]; discriminate.
Qed.

Lemma serve_all_cons cfg st t req rest :
  serve_all cfg st ((t, req) :: rest) =
  ((serve cfg st t req).1 :: (serve_all cfg (serve cfg st t req).2 rest).1,
   (serve_all cfg (serve cfg st t req).2 rest).2).
Proof.
  cbn [serve_all]. destruct (serve cfg st t req) as [r st1]. cbn [fst snd].
  destruct (serve_all cfg st1 rest) as [rs st2]. reflexivity.
Qed.

(** While the window of a client lasts, its requests are counted one by
    one, whatever other requests are served in between, and those beyond
    the hundredth are answered with 429. *)
Lemma serve_all_window cfg a R reqs :
  forall st h,
  st !! a = Some {| totalHits := h; resetTime := R |} ->
  Forall (fun tr : Z * request => counted_for cfg a tr = true -> (tr.1 < R)%Z) reqs ->
  (serve_all cfg st reqs).2 !! a
    = Some {| totalHits := h + N.of_nat (length (List.filter (counted_for cfg a) reqs));
              resetTime := R |} /\
  forall i tr r, reqs !! i = Some tr -> (serve_all cfg st reqs).1 !! i = Some r ->
    counted_for cfg a tr = true ->
    if (h + N.of_nat (counted_before cfg a reqs i) <? 100)%N
    then went_on r
    else status r = 429%Z /\ sent_by r = ByLimiter.
Proof.
  induction reqs as [|[t req] rest IH]; intros st h Hst Hall.
  - simpl. rewrite N.add_0_r. split; [exact Hst|]. intros i tr r Hi. destruct i; discriminate.
  - inversion Hall as [|? ? Hhead Hrest]; subst.
    rewrite serve_all_cons. cbn [fst snd].
    destruct (counted_for cfg a (t, req)) eqn:Hc.
    + specialize (Hhead eq_refl). simpl in Hhead.
      unfold counted_for in Hc. cbn [snd] in Hc.
      apply andb_true_iff in Hc as [Hreach Hip]. apply String.eqb_eq in Hip. subst a.
      destruct (serve_counted cfg st t req Hreach) as (Hstore & _ & Hresp).
      assert (Hb : current_bucket apiLimiterOptions
                     {| store := st; now := t; out_headers := [] |} (req_ip req)
                   = {| totalHits := h; resetTime := R |}).
      { unfold current_bucket. cbn [store now]. rewrite Hst. cbn [resetTime].
        destruct (Z.leb_spec R t); [lia | reflexivity]. }
      unfold has_room in Hresp. rewrite Hb in Hstore, Hresp. cbn [totalHits resetTime] in *.
      destruct (IH (serve cfg st t req).2 (h + 1)%N) as [IHs IHr].
      { rewrite Hstore. apply lookup_insert_eq. }
      { exact Hrest. }
      assert (Hself : counted_for cfg (req_ip req) (t, req) = true).
      { unfold counted_for. cbn [snd]. rewrite Hreach, String.eqb_refl. reflexivity. }
      split.
      * rewrite IHs. cbn [List.filter]. rewrite Hself. cbn [length]. f_equal. f_equal. lia.
      * intros [|i] tr r Hi Hr Htr.
        -- injection Hr as <-. unfold counted_before. cbn [take List.filter length].
           rewrite N.add_0_r. change (max apiLimiterOptions) with 100%N in Hresp.
           unfold went_on. destruct (h <? 100)%N; tauto.
        -- specialize (IHr i tr r Hi Hr Htr).
           unfold counted_before in *. cbn [take List.filter]. rewrite Hself. cbn [length].
           replace (h + N.of_nat (S (length (List.filter (counted_for cfg (req_ip req))
                                                        (take i rest)))))%N
             with (h + 1 + N.of_nat (length (List.filter (counted_for cfg (req_ip req))
                                                        (take i rest))))%N by lia.
           exact IHr.
    + assert (Hsame : (serve cfg st t req).2 !! a = st !! a).
      { destruct (reaches_limiter cfg req) eqn:Hreach.
        - destruct (serve_counted cfg st t req Hreach) as (-> & _).
          apply lookup_insert_ne. intros E.
          unfold counted_for in Hc. cbn [snd] in Hc. rewrite Hreach, E in Hc.
          rewrite String.eqb_refl in Hc. discriminate.
        - destruct (serve_not_counted cfg st t req Hreach) as (-> & _). reflexivity. }
      destruct (IH (serve cfg st t req).2 h) as [IHs IHr].
      { rewrite Hsame. exact Hst. }
      { exact Hrest. }
      split.
      * rewrite IHs. cbn [List.filter]. rewrite Hc. reflexivity.
      * intros [|i] tr r Hi Hr Htr.
        -- injection Hi as <-. congruence.
        -- specialize (IHr i tr r Hi Hr Htr).
           unfold counted_before in *. cbn [take List.filter]. rewrite Hc. exact IHr.
Qed.

(** The bucket a request is counted in resets after the request. *)
Lemma current_bucket_live o c key :
  (0 < windowMs o)%Z -> (now c < resetTime (current_bucket o c key))%Z.
Proof.
  intros Hw. unfold current_bucket.
  destruct (store c !! key) as [b|]; cbn [resetTime]; [|lia].
  destruct (Z.leb_spec (resetTime b) (now c)); cbn [resetTime]; lia.
Qed.

Lemma reset_seconds_live c b :
  (now c < resetTime b)%Z ->
  reset_seconds c b = ((resetTime b - now c + 999) / 1000)%Z /\ (1 <= reset_seconds c b)%Z.
Proof.
  intros H. unfold reset_seconds.
  assert (1 <= (resetTime b - now c + 999) / 1000)%Z
    by (apply Z.div_le_lower_bound; lia).
  split; lia.
Qed.

(** The headers of a counted request: the policy, the limit, what is left
    and the time to the reset, and on a 429 answer Retry-After. *)
Lemma counted_headers cfg st t req :
  reaches_limiter cfg req = true ->
  let c := {| store := st; now := t; out_headers := [] |} in
  let b := current_bucket apiLimiterOptions c (req_ip req) in
  let seconds := ((resetTime b - t + 999) / 1000)%Z in
  (1 <= seconds)%Z /\
  headers (serve cfg st t req).1 =
    ([("RateLimit-Policy", "100;w=600"); ("RateLimit-Limit", "100");
      ("RateLimit-Remaining", pretty (100 - (totalHits b + 1))%N);
      ("RateLimit-Reset", pretty seconds)] ++
     if has_room st t req then [] else [("Retry-After", pretty seconds)])%list.
Proof.
  intros H c b seconds.
  destruct (serve_counted cfg st t req H) as (_ & Hh & _).
  fold c in Hh. fold b in Hh.
  pose proof (current_bucket_live apiLimiterOptions c (req_ip req) ltac:(reflexivity)) as Hlive.
  fold b in Hlive. cbn [now c] in Hlive.
  destruct (reset_seconds_live c {| totalHits := totalHits b + 1; resetTime := resetTime b |}
              Hlive) as [Hs Hpos].
  cbn [resetTime now c] in Hs. fold seconds in Hs.
  split; [rewrite <- Hs; exact Hpos|].
  rewrite Hh. unfold rate_limit_headers, retry_after_header.
  cbn [standardHeaders legacyHeaders apiLimiterOptions max totalHits windowMs orb app].
  rewrite Hs. destruct (Z.eqb_spec seconds 0) as [E|_]; [rewrite Hs in Hpos; lia|].
  reflexivity.
Qed.

Lemma pretty_100 : pretty 100%N = "100".
Proof. vm_compute. reflexivity. Qed.

(** C5 as stated fails: of 101 requests to /api/hello from one client
    within one window, each from an origin the allow-list does not hold,
    the last is answered with 500 like the others, not with 429. *)
Lemma refused_burst_is_not_limited :
  let out := serve_all Samples.allow_a ∅ Samples.refused_burst in
  length Samples.refused_burst = 101%nat /\
  Forall (fun tr : Z * request =>
            under_api tr.2 = true /\ req_ip tr.2 = "203.0.113.7" /\ tr.1 = 0%Z)
         Samples.refused_burst /\
  option_map status (out.1 !! 100%nat) = Some 500%Z /\
  option_map status (out.1 !! 100%nat) <> Some 429%Z /\
  out.2 = ∅.
Proof.
  intros out. split; [reflexivity|]. split.
  { apply Forall_forall. intros x Hx. apply list_elem_of_In, repeat_spec in Hx.
    subst x. vm_compute. auto. }
  split; [vm_compute; reflexivity|].
  split; [vm_compute; discriminate | vm_compute; reflexivity].
Qed.

(** C5, as the code has it.  The limiter's options are a window of ten
    minutes, at most 100 requests, the standard headers and not the legacy
    ones.  A request whose path is not under /api is never counted,
    limited or given the headers.  A request counted by the limiter (one
    under /api that the body parsers and the CORS stage let through)
    carries the standard headers RateLimit-Limit, RateLimit-Remaining and
    RateLimit-Reset and no legacy X-RateLimit header.  When a client's
    window opens with a request at [t0], then, whatever other requests are
    served in between, of the client's counted requests before
    [t0 + 600000] the first hundred go on to the routes and every later
    one is answered with 429 by the limiter; a counted request of the
    client at or after [t0 + 600000] goes on to the routes again. *)
Theorem api_rate_limit cfg :
  (windowMs apiLimiterOptions = 600000%Z /\ max apiLimiterOptions = 100%N /\
   standardHeaders apiLimiterOptions = true /\ legacyHeaders apiLimiterOptions = false) /\
  (forall st t req, under_api req = false ->
     (serve cfg st t req).2 = st /\ headers (serve cfg st t req).1 = [] /\
     sent_by (serve cfg st t req).1 <> ByLimiter /\ status (serve cfg st t req).1 <> 429%Z) /\
  (forall st t req, reaches_limiter cfg req = true ->
     let b := current_bucket apiLimiterOptions
                {| store := st; now := t; out_headers := [] |} (req_ip req) in
     let hs := headers (serve cfg st t req).1 in
     In ("RateLimit-Limit", "100") hs /\
     In ("RateLimit-Remaining", pretty (100 - (totalHits b + 1))%N) hs /\
     In ("RateLimit-Reset", pretty ((resetTime b - t + 999) / 1000)%Z) hs /\
     (forall name value, In (name, value) hs -> is_legacy_header name = false)) /\
  (forall st a t0 first rest,
     reaches_limiter cfg first = true -> req_ip first = a ->
     (forall b, st !! a = Some b -> (resetTime b <= t0)%Z) ->
     Forall (fun tr : Z * request =>
               counted_for cfg a tr = true -> (t0 <= tr.1 < t0 + 600000)%Z) rest ->
     let reqs := (t0, first) :: rest in
     let out := serve_all cfg st reqs in
     (forall i tr r, reqs !! i = Some tr -> out.1 !! i = Some r ->
        counted_for cfg a tr = true ->
        ((counted_before cfg a reqs i < 100)%nat -> went_on r) /\
        ((100 <= counted_before cfg a reqs i)%nat ->
         status r = 429%Z /\ sent_by r = ByLimiter)) /\
     (forall t' req', reaches_limiter cfg req' = true -> req_ip req' = a ->
        (t0 + 600000 <= t')%Z -> went_on (serve cfg out.2 t' req').1)).
Proof.
  split; [repeat split|]. split; [|split].
  - intros st t req Hu. apply serve_not_counted.
    unfold reaches_limiter. rewrite Hu. apply andb_false_r.
  - intros st t req Hreach b hs.
    destruct (counted_headers cfg st t req Hreach) as [_ Hh].
    subst hs. fold b in Hh. rewrite Hh.
    split; [simpl; tauto|]. split; [simpl; tauto|]. split; [simpl; tauto|].
    intros name value Hin. apply in_app_or in Hin as [Hin | Hin].
    + simpl in Hin. destruct Hin as [E|[E|[E|[E|[]]]]]; injection E as <- _; reflexivity.
    + destruct (has_room st t req); simpl in Hin; [contradiction|].
      destruct Hin as [E|[]]. injection E as <- _. reflexivity.
  - intros st a t0 first rest Hreach Hip Hfresh Hrest reqs out. subst a.
    pose (R := (t0 + 600000)%Z).
    assert (Hb : current_bucket apiLimiterOptions
                   {| store := st; now := t0; out_headers := [] |} (req_ip first)
                 = {| totalHits := 0; resetTime := R |}).
    { unfold current_bucket. cbn [store now windowMs apiLimiterOptions].
      destruct (st !! req_ip first) as [b|] eqn:Eb; [|reflexivity].
      specialize (Hfresh b eq_refl). destruct (Z.leb_spec (resetTime b) t0); [reflexivity | lia]. }
    destruct (serve_counted cfg st t0 first Hreach) as (Hstore & _ & Hresp).
    unfold has_room in Hresp. rewrite Hb in Hstore, Hresp.
    cbn [totalHits resetTime] in Hstore, Hresp. simpl in Hresp.
    assert (Hrest' : Forall (fun tr : Z * request =>
                       counted_for cfg (req_ip first) tr = true -> (tr.1 < R)%Z) rest).
    { eapply Forall_impl; [exact Hrest|]. intros tr H Hc. specialize (H Hc). unfold R. lia. }
    destruct (serve_all_window cfg (req_ip first) R rest (serve cfg st t0 first).2 1%N)
      as [Hfin Hrs]; [rewrite Hstore; apply lookup_insert_eq | exact Hrest' |].
    assert (Hself : counted_for cfg (req_ip first) (t0, first) = true).
    { unfold counted_for. cbn [snd]. rewrite Hreach, String.eqb_refl. reflexivity. }
    subst out reqs. rewrite serve_all_cons. cbn [fst snd].
    split.
    + intros [|i] tr r Hi Hr Htr.
      * injection Hr as <-. unfold counted_before. cbn [take List.filter length].
        split; [intros _; exact Hresp | lia].
      * specialize (Hrs i tr r Hi Hr Htr).
        unfold counted_before in *. cbn [take List.filter]. rewrite Hself. cbn [length].
        destruct (N.ltb_spec (1 + N.of_nat (length (List.filter
                    (counted_for cfg (req_ip first)) (take i rest)))) 100);
          split; intros Hk; try lia; exact Hrs.
    + intros t' req' Hreach' Hip' Ht'.
      destruct (serve_counted cfg (serve_all cfg (serve cfg st t0 first).2 rest).2 t' req' Hreach')
        as (_ & _ & Hresp').
      unfold has_room, current_bucket in Hresp'. cbn [store now] in Hresp'.
      rewrite Hip', Hfin in Hresp'. cbn [resetTime] in Hresp'.
      destruct (Z.leb_spec R t'); [|unfold R in *; lia]. exact Hresp'.
Qed.

Lemma api_rate_limit_witness :
  option_map status ((serve_all Samples.allow_a ∅ Samples.allowed_burst).1 !! 100%nat)
  = Some 429%Z.
Proof.
  destruct (api_rate_limit Samples.allow_a) as (_ & _ & _ & H).
  specialize (H ∅ "203.0.113.7" 0%Z Samples.hello (repeat (0%Z, Samples.hello) 100)
                eq_refl eq_refl).
  cbv zeta in H.
  destruct H as (H429 & _).
  - intros b Hb. rewrite lookup_empty in Hb. discriminate.
  - apply Forall_forall. intros x Hx.
    apply list_elem_of_In in Hx. apply (repeat_spec 100) in Hx. subst x.
    intros _. simpl. lia.
  - change ((0%Z, Samples.hello) :: repeat (0%Z, Samples.hello) 100)
      with Samples.allowed_burst in H429.
    destruct ((serve_all Samples.allow_a ∅ Samples.allowed_burst).1 !! 100%nat)
      as [r|] eqn:E.
    + assert (Hi : Samples.allowed_burst !! 100%nat = Some (0%Z, Samples.hello))
        by reflexivity.
      destruct (H429 100%nat _ r Hi E eq_refl) as [_ Hlim].
      destruct Hlim as [Hs _]; [vm_compute; lia|]. simpl. rewrite Hs. reflexivity.
    + vm_compute in E. discriminate E.
Defined.

(** C9: a CORS_ORIGINS value made of commas and white space only gives
    the empty allow-list, so [corsOptions] is the empty object, the
    configuration and every response are those of the environment without
    CORS_ORIGINS, and no origin is refused. *)
Theorem blank_cors_origins_is_permissive (e : Config.process_env) v :
  e !! "CORS_ORIGINS" = Some v ->
  JS.all_chars (fun c => Ascii.eqb c JS.comma || JS.is_ws c) v = true ->
  Config.corsOrigins (Config.load e) = [] /\
  corsOptions (Config.corsOrigins (Config.load e)) = {| origin := None; credentials := false |} /\
  Config.load e = Config.load (delete "CORS_ORIGINS" e) /\
  (forall st t req,
     serve (Config.load e) st t req = serve (Config.load (delete "CORS_ORIGINS" e)) st t req) /\
  (forall req, origin_allowed (Config.load e) req = true).
Proof.
  intros He Hv.
  assert (H0 : Config.corsOrigins (Config.load e) = []).
  { unfold Config.load. simpl. rewrite He. apply parseOrigins_blank, Hv. }
  split; [exact H0|]. split; [rewrite H0; reflexivity|].
  pose proof (load_delete_cors e H0) as Hl.
  split; [exact Hl|]. split.
  - intros st t req. rewrite <- Hl. reflexivity.
  - intros req. apply origin_allowed_iff. left. exact H0.
Qed.

Lemma blank_cors_origins_is_permissive_witness :
  Config.corsOrigins (Config.load {[ "CORS_ORIGINS" := " , ,, " ]}) = [] /\
  origin_allowed (Config.load {[ "CORS_ORIGINS" := " , ,, " ]})
                 (Samples.request_of GET "/" Samples.evil) = true.
Proof.
  assert (He : ({[ "CORS_ORIGINS" := " , ,, " ]} : Config.process_env) !! "CORS_ORIGINS"
               = Some " , ,, ") by (vm_compute; reflexivity).
  destruct (blank_cors_origins_is_permissive _ " , ,, " He eq_refl)
    as (H1 & _ & _ & _ & H5).
  split; [exact H1 | apply H5].
Defined.

End ServerFacts.

(** ** Graceful shutdown *)

Section ShutdownFacts.

Import Shutdown.

Lemma shutdown_running t0 s :
  shutdown s (running t0) =
  {| clock := t0; listening := false; close_pending := 1;
     timers := [{| deadline := (t0 + 10000)%Z; ref := false |}];
     log := [WarnShutdownStart s]; exit_code := None; killed_by := None |}.
Proof. reflexivity. Qed.

Lemma ended_false q : ended q = false <-> exit_code q = None /\ killed_by q = None.
Proof.
  unfold ended. destruct (exit_code q), (killed_by q); split;
    intros H; try discriminate; try (destruct H; discriminate); auto.
Qed.

Lemma draining_after_signal t0 s : draining t0 (shutdown s (running t0)).
Proof.
  rewrite shutdown_running. unfold draining, watchdog_ms. simpl.
  repeat split; try lia; eauto. repeat constructor. simpl. lia.
Qed.

(** A step from a draining process leaves it draining, or ends it: by an
    exit, for the reason [exit_by] tells, or by a signal that has no
    listener. *)
Lemma step_draining t0 q ev q' :
  draining t0 q -> step q ev = Some q' ->
  match exit_code q', killed_by q' with
  | None, None => draining t0 q'
  | Some c, _ => exit_by t0 ev c (clock q')
  | None, Some k => ev = Signal k /\ handled k = false
  end.
Proof.
  intros (Hex & Hl & Hp & Hc & [rest Ht] & Hall) Hstep.
  apply ended_false in Hex as [Hex Hk].
  destruct q as [clk lis pend tms lg ex kb]. simpl in *. subst ex kb lis tms.
  unfold step in Hstep. cbn [ended exit_code killed_by close_pending timers clock] in Hstep.
  destruct ev as [s | err | | dt].
  - destruct (handled s) eqn:Hh; injection Hstep as <-.
    + unfold draining, shutdown, setTimeout_unref, server_close, logger, stmt. simpl.
      repeat split; try lia; eauto.
      rewrite app_comm_cons. apply Forall_app. split; [exact Hall|].
      repeat constructor. simpl. lia.
    + simpl. auto.
  - destruct pend as [|pend]; [lia|]. injection Hstep as <-.
    destruct err; unfold exit_by; simpl; lia.
  - destruct (existsb _ _) eqn:Hdue; [|discriminate]. injection Hstep as <-.
    unfold exit_by. simpl. split; [reflexivity|].
    apply existsb_exists in Hdue as (tm & Hin & Hd). unfold due in Hd. simpl in Hd.
    rewrite Forall_forall in Hall. apply list_elem_of_In in Hin.
    destruct (Hall tm Hin) as [_ Hge]. apply Z.leb_le in Hd. lia.
  - destruct (Z.ltb_spec 0 dt); [|discriminate]. injection Hstep as <-.
    unfold draining. simpl. repeat split; try lia; eauto.
Qed.

(** Nothing happens to a process that is over. *)
Lemma run_ended q evs p :
  ended q = true -> run q evs = Some p -> evs = [] /\ p = q.
Proof.
  intros Hq. destruct evs as [|ev evs]; simpl.
  - intros [= <-]. auto.
  - unfold step. rewrite Hq. discriminate.
Qed.

Lemma run_exited q evs p c :
  exit_code q = Some c -> run q evs = Some p -> evs = [] /\ p = q.
Proof.
  intros Hq. apply run_ended. unfold ended. rewrite Hq. reflexivity.
Qed.

(** Every run of a draining process keeps it draining until an event
    ends it, and that event is the last of the run. *)
Lemma run_draining t0 evs :
  forall q p, draining t0 q -> run q evs = Some p ->
  match exit_code p, killed_by p with
  | None, None => draining t0 p
  | Some c, _ => exists evs' ev, evs = (evs' ++ [ev])%list /\ exit_by t0 ev c (clock p)
  | None, Some k => handled k = false /\ exists evs', evs = (evs' ++ [Signal k])%list
  end.
Proof.
  induction evs as [|ev evs IH]; intros q p Hq Hrun; simpl in Hrun.
  - injection Hrun as <-. pose proof Hq as (Hex & _).
    apply ended_false in Hex as [-> ->]. exact Hq.
  - destruct (step q ev) as [q'|] eqn:Hstep; [|discriminate].
    pose proof (step_draining t0 q ev q' Hq Hstep) as Hq'.
    destruct (ended q') eqn:Hend.
    + destruct (run_ended q' evs p Hend Hrun) as [-> ->].
      unfold ended in Hend.
      destruct (exit_code q') as [c|] eqn:He.
      * exists [], ev. split; [reflexivity | exact Hq'].
      * destruct (killed_by q') as [k|] eqn:Hk; [|discriminate Hend].
        destruct Hq' as [-> Hh]. split; [exact Hh|]. exists []. reflexivity.
    + pose proof Hend as Hend'. apply ended_false in Hend' as [He Hk].
      rewrite He, Hk in Hq'.
      specialize (IH q' p Hq' Hrun).
      destruct (exit_code p) as [c|].
      * destruct IH as (evs' & ev' & -> & Hby).
        exists (ev :: evs'), ev'. split; [reflexivity | exact Hby].
      * destruct (killed_by p) as [k|]; [|exact IH].
        destruct IH as (Hh & evs' & ->). split; [exact Hh|].
        exists (ev :: evs'). reflexivity.
Qed.

(** What can happen to a draining process: the server reports that it
    has closed, which runs the callback and ends the process with code 0
    without error and 1 with one; and the watchdog fires, which ends it
    with code 1, once its deadline has come and not before. *)
Lemma draining_enabled t0 q :
  draining t0 q ->
  (forall err, step q (Closed err) = Some (close_callback err q) /\
     exit_code (close_callback err q) =
       Some (match err with None => 0 | Some _ => 1 end)%Z) /\
  ((t0 + watchdog_ms <= clock q)%Z ->
     step q Fire = Some (watchdog q) /\ exit_code (watchdog q) = Some 1%Z) /\
  ((clock q < t0 + watchdog_ms)%Z -> step q Fire = None) /\
  (forall dt, (0 < dt)%Z -> exists q', step q (Tick dt) = Some q' /\ ended q' = false).
Proof.
  intros (Hex & Hl & Hp & Hc & [rest Ht] & Hall).
  apply ended_false in Hex as [Hex Hk].
  destruct q as [clk lis pend tms lg ex kb]. simpl in *. subst ex kb lis tms.
  unfold step. cbn [ended exit_code killed_by close_pending timers clock].
  repeat split.
  - destruct pend; [lia | reflexivity].
  - destruct err; reflexivity.
  - simpl. unfold due at 1. simpl.
    destruct (Z.leb_spec (t0 + watchdog_ms) clk); [reflexivity | lia].
  - intros Hlt.
    assert (Hnone : existsb (due {| clock := clk; listening := false; close_pending := pend;
                        timers := {| deadline := (t0 + watchdog_ms)%Z; ref := false |} :: rest;
                        log := lg; exit_code := None; killed_by := None |})
                      ({| deadline := (t0 + watchdog_ms)%Z; ref := false |} :: rest) = false).
    { apply not_true_is_false. intros Hd.
      apply existsb_exists in Hd as (tm & Hin & Hd). unfold due in Hd. simpl in Hd.
      rewrite Forall_forall in Hall. apply list_elem_of_In in Hin.
      destruct (Hall tm Hin) as [_ Hge]. apply Z.leb_le in Hd. lia. }
    rewrite Hnone. reflexivity.
  - intros dt Hdt. destruct (Z.ltb_spec 0 dt); [|lia]. eexists. split; reflexivity.
Qed.

(** No timer of a draining process keeps the event loop running: the
    loop waits for the server only. *)
Lemma draining_timers_unref t0 q :
  draining t0 q ->
  existsb ref (timers q) = false /\
  event_loop_alive q = listening q || (0 <? close_pending q)%nat.
Proof.
  intros (_ & _ & _ & _ & _ & Hall).
  assert (H : existsb ref (timers q) = false).
  { induction Hall as [|tm l [Hr _] _ IH]; [reflexivity|]. simpl. rewrite Hr, IH. reflexivity. }
  split; [exact H|]. unfold event_loop_alive. rewrite H. apply orb_false_r.
Qed.

(** C2: on SIGINT or SIGTERM the server stops accepting connections and
    a [close] callback waits for the open ones.  While the process then
    runs, the report that the server closed ends it with code 0 when
    there is no error and with code 1 when there is one; the watchdog
    ends it with code 1 once ten seconds have passed since the signal,
    and cannot fire before; the watchdog, being unref'd, is never what
    the event loop waits for.  Conversely, when the process has exited,
    the code is 0 exactly when the last event was a close without error,
    and 1 exactly when it was a close with an error or the watchdog, at
    least ten seconds after the signal.  The only other end is a signal
    that has no listener, which gives no exit code. *)
Theorem graceful_shutdown t0 s :
  s = SIGINT \/ s = SIGTERM ->
  let p1 := shutdown s (running t0) in
  step (running t0) (Signal s) = Some p1 /\
  listening p1 = false /\ close_pending p1 = 1%nat /\
  timers p1 = [{| deadline := (t0 + 10000)%Z; ref := false |}] /\
  forall evs p, run p1 evs = Some p ->
    match exit_code p, killed_by p with
    | None, None =>
        listening p = false /\
        existsb ref (timers p) = false /\
        event_loop_alive p = (0 <? close_pending p)%nat /\
        step p (Closed None) = Some (close_callback None p) /\
        exit_code (close_callback None p) = Some 0%Z /\
        (forall e, step p (Closed (Some e)) = Some (close_callback (Some e) p) /\
                   exit_code (close_callback (Some e) p) = Some 1%Z) /\
        ((t0 + 10000 <= clock p)%Z ->
         step p Fire = Some (watchdog p) /\ exit_code (watchdog p) = Some 1%Z) /\
        ((clock p < t0 + 10000)%Z -> step p Fire = None) /\
        (forall dt, (0 < dt)%Z ->
           exists p', step p (Tick dt) = Some p' /\ exit_code p' = None)
    | Some c, _ =>
        exists evs' ev, evs = (evs' ++ [ev])%list /\
          (c = 0%Z <-> ev = Closed None) /\
          (c = 1%Z <-> (exists e, ev = Closed (Some e)) \/ ev = Fire) /\
          (ev = Fire -> (t0 + 10000 <= clock p)%Z)
    | None, Some k =>
        handled k = false /\ exists evs', evs = (evs' ++ [Signal k])%list
    end.
Proof.
  intros Hs p1.
  assert (Hh : handled s = true) by (destruct Hs as [-> | ->]; reflexivity).
  split; [unfold step; simpl; rewrite Hh; reflexivity|].
  do 3 (split; [reflexivity|]).
  intros evs p Hrun.
  pose proof (run_draining t0 evs p1 p (draining_after_signal t0 s) Hrun) as H.
  destruct (exit_code p) as [c|] eqn:Hec.
  - destruct H as (evs' & ev & -> & Hby). exists evs', ev.
    split; [reflexivity|]. unfold exit_by, watchdog_ms in Hby.
    destruct ev as [sg | [e|] | | dt]; try contradiction.
    + subst c. split; [split; intros Hx; discriminate Hx|].
      split; [split; eauto|]. intros Hx; discriminate Hx.
    + subst c. split; [split; reflexivity|].
      split; [|intros Hx; discriminate Hx].
      split; [intros Hx; discriminate Hx|].
      intros [[e' Hx] | Hx]; discriminate Hx.
    + destruct Hby as [-> Hclk]. split; [split; intros Hx; discriminate Hx|].
      split; [split; auto|]. intros _. exact Hclk.
  - destruct (killed_by p) as [k|] eqn:Hkp; [exact H|].
    destruct (draining_timers_unref t0 p H) as [Hu Ha].
    destruct (draining_enabled t0 p H) as (Hclose & Hfire & Hnot & Htick).
    destruct H as (_ & Hl & _ & Hc & _). unfold watchdog_ms in *.
    rewrite Hl in Ha. simpl in Ha.
    split; [exact Hl|]. split; [exact Hu|]. split; [exact Ha|].
    split; [apply (Hclose None)|]. split; [apply (Hclose None)|].
    split; [intros e; apply (Hclose (Some e))|].
    split; [exact Hfire|]. split; [exact Hnot|].
    intros dt Hdt. destruct (Htick dt Hdt) as (p' & Hstep & Hend).
    exists p'. split; [exact Hstep|]. apply ended_false in Hend. apply Hend.
Qed.

Lemma graceful_shutdown_witness :
  option_map exit_code (run (shutdown SIGTERM (running 0)) [Tick 2000; Closed None])
    = Some (Some 0%Z) /\
  option_map exit_code (run (shutdown SIGTERM (running 0)) [Tick 10000; Fire])
    = Some (Some 1%Z).
Proof.
  pose proof (graceful_shutdown 0 SIGTERM (or_intror eq_refl)) as H.
  cbv zeta in H. destruct H as (_ & _ & _ & _ & H).
  split.
  - destruct (run (shutdown SIGTERM (running 0)) [Tick 2000; Closed None]) as [p|] eqn:E;
      [|vm_compute in E; discriminate E].
    specialize (H _ _ E). simpl. do 2 f_equal.
    destruct (exit_code p) as [c|] eqn:Ec.
    + destruct H as (evs' & ev & Hev & H0 & _).
      apply (app_inj_tail [Tick 2000] evs' (Closed None) ev) in Hev as [_ <-].
      f_equal. apply H0. reflexivity.
    + vm_compute in E. injection E as <-. discriminate Ec.
  - destruct (run (shutdown SIGTERM (running 0)) [Tick 10000; Fire]) as [p|] eqn:E;
      [|vm_compute in E; discriminate E].
    specialize (H _ _ E). simpl. do 2 f_equal.
    destruct (exit_code p) as [c|] eqn:Ec.
    + destruct H as (evs' & ev & Hev & _ & H1 & _).
      apply (app_inj_tail [Tick 10000] evs' Fire ev) in Hev as [_ <-].
      f_equal. apply H1. right. reflexivity.
    + vm_compute in E. injection E as <-. discriminate Ec.
Defined.

End ShutdownFacts.

(** ** Further properties of the middleware chain *)

Section MoreServerFacts.

Import Http Server Notions.
Local Open Scope string_scope.

(** The error handler's answer to an error raised in front of the
    routes. *)
Lemma serve_raised cfg st t req e :
  raised cfg req = Some e ->
  valid_status (status_or_500 (err_status e)) = true /\
  (serve cfg st t req).1 =
    {| status := status_or_500 (err_status e);
       content := error_body (Config.env cfg) e;
       headers := [];
       sent_by := ByErrorHandler |} /\
  (serve cfg st t req).2 = st.
Proof.
  intros H. unfold serve. rewrite (dispatch_raised _ _ _ _ H). simpl.
  split; [|split; reflexivity].
  destruct (raised_status _ _ _ H) as [-> | [-> | [-> | ->]]]; reflexivity.
Qed.

(** A JSON or urlencoded body of more than 1 MB, in a charset and content
    encoding the parser supports, is refused with 413 by the error handler
    whatever the method, the path and the origin are: no route runs and
    the limiter does not count the request.  The message "request entity
    too large" is in the body unless the environment is production. *)
Theorem oversized_body_is_413 cfg st t req p :
  req_payload req = Some p ->
  media_type p = MediaJson \/ media_type p = MediaUrlencoded ->
  (forall msg, parse_error p <> Some (Unsupported msg)) ->
  (1048576 < byte_length p)%N ->
  let r := (serve cfg st t req).1 in
  status r = 413%Z /\ sent_by r = ByErrorHandler /\
  (serve cfg st t req).2 = st /\
  content r = Json (JObject
                [("ok", JBool false);
                 ("error", JString (if String.eqb (Config.env cfg) "production"
                                    then "Internal Server Error"
                                    else "request entity too large"))]).
Proof.
  intros Hp Hm Hsup Hlen r. subst r.
  assert (Hr : raised cfg req = Some (createError 413 "request entity too large")).
  { unfold raised, parse_body, limit_1mb. rewrite Hp.
    destruct (N.ltb_spec (1024 * 1024) (byte_length p)) as [_|Hle]; [|lia].
    destruct (parse_error p) as [[msg| |msg]|]; [destruct (Hsup msg eq_refl)| | |];
      destruct Hm as [-> | ->]; reflexivity. }
  destruct (serve_raised cfg st t req _ Hr) as (_ & -> & ->). simpl.
  repeat split. unfold error_body.
  destruct (String.eqb (Config.env cfg) "production"); reflexivity.
Qed.

Lemma oversized_body_is_413_witness :
  status (serve Samples.defaults ∅ 0 (post_json 1048577 None)).1 = 413%Z.
Proof.
  apply (oversized_body_is_413 Samples.defaults ∅ 0%Z (post_json 1048577 None)
           {| media_type := MediaJson; byte_length := 1048577; parse_error := None |}
           eq_refl (or_introl eq_refl)).
  - intros msg. discriminate.
  - reflexivity.
Defined.

(** What else the parsers refuse a JSON or urlencoded body for: an
    unsupported charset or content encoding with 415, whatever the length;
    within the 1 MB limit, a urlencoded body with too many parameters
    with 413 and content that does not parse with 400.  The error handler answers, the limiter's
    store is left alone, and the parser's message is in the body unless
    the environment is production. *)
Theorem refused_body_status cfg st t req p :
  req_payload req = Some p ->
  media_type p = MediaJson \/ media_type p = MediaUrlencoded ->
  let r := (serve cfg st t req).1 in
  let shown msg := Json (JObject
                     [("ok", JBool false);
                      ("error", JString (if String.eqb (Config.env cfg) "production"
                                         then "Internal Server Error" else msg))]) in
  (forall msg, parse_error p = Some (Unsupported msg) ->
     status r = 415%Z /\ content r = shown msg) /\
  (media_type p = MediaUrlencoded ->
   parse_error p = Some TooManyParameters -> (byte_length p <= 1048576)%N ->
     status r = 413%Z /\ content r = shown "too many parameters") /\
  (forall msg, parse_error p = Some (Malformed msg) -> (byte_length p <= 1048576)%N ->
     status r = 400%Z /\ content r = shown msg) /\
  (parse_error p <> None -> sent_by r = ByErrorHandler /\ (serve cfg st t req).2 = st).
Proof.
  intros Hp Hm r shown. subst r shown.
  assert (Hraised : forall f, parse_error p = Some f ->
            (byte_length p <= 1048576)%N \/ (exists msg, f = Unsupported msg) ->
            raised cfg req = Some (match f with
                                   | Unsupported msg => createError 415 msg
                                   | TooManyParameters => createError 413 "too many parameters"
                                   | Malformed msg => createError 400 msg
                                   end)).
  { intros f Hf Hlen. unfold raised, parse_body, limit_1mb. rewrite Hp, Hf.
    destruct f as [msg| |msg];
      try (destruct Hm as [-> | ->]; reflexivity);
      (destruct Hlen as [Hlen | [m [=]]];
       destruct (N.ltb_spec (1024 * 1024) (byte_length p)) as [Hgt|_]; [lia|];
       destruct Hm as [-> | ->]; reflexivity). }
  assert (Hshown : forall e, content
            {| status := status_or_500 (err_status e);
               content := error_body (Config.env cfg) e;
               headers := []; sent_by := ByErrorHandler |}
            = Json (object [("ok", Some (JBool false));
                            ("error", if String.eqb (Config.env cfg) "production"
                                      then Some (JString "Internal Server Error")
                                      else option_map JString (err_message e))]))
    by reflexivity.
  split; [|split; [|split]].
  - intros msg Hf.
    destruct (serve_raised cfg st t req _ (Hraised _ Hf (or_intror (ex_intro _ msg eq_refl))))
      as (_ & -> & _).
    split; [reflexivity|]. rewrite Hshown. simpl.
    destruct (String.eqb (Config.env cfg) "production"); reflexivity.
  - intros _ Hf Hlen.
    destruct (serve_raised cfg st t req _ (Hraised _ Hf (or_introl Hlen))) as (_ & -> & _).
    split; [reflexivity|]. rewrite Hshown. simpl.
    destruct (String.eqb (Config.env cfg) "production"); reflexivity.
  - intros msg Hf Hlen.
    destruct (serve_raised cfg st t req _ (Hraised _ Hf (or_introl Hlen))) as (_ & -> & _).
    split; [reflexivity|]. rewrite Hshown. simpl.
    destruct (String.eqb (Config.env cfg) "production"); reflexivity.
  - intros Hne.
    assert (He : exists e, raised cfg req = Some e).
    { unfold raised, parse_body, limit_1mb. rewrite Hp.
      destruct (parse_error p) as [f|]; [|contradiction].
      destruct Hm as [-> | ->]; cbn [negb];
        destruct f; destruct (1024 * 1024 <? byte_length p)%N; eauto. }
    destruct He as [e He].
    destruct (serve_raised cfg st t req _ He) as (_ & -> & ->). split; reflexivity.
Qed.

Lemma refused_body_status_witness :
  status (serve Samples.defaults ∅ 0
            (post_json 2 (Some (Malformed "Unexpected end of JSON input")))).1 = 400%Z /\
  status (serve Samples.defaults ∅ 0
            (post_json 2000000 (Some (Unsupported "unsupported charset")))).1 = 415%Z.
Proof.
  split.
  - apply (proj1 (proj2 (proj2 (refused_body_status Samples.defaults ∅ 0%Z
             (post_json 2 (Some (Malformed "Unexpected end of JSON input")))
             {| media_type := MediaJson; byte_length := 2;
                parse_error := Some (Malformed "Unexpected end of JSON input") |}
             eq_refl (or_introl eq_refl)))) "Unexpected end of JSON input" eq_refl).
    vm_compute. discriminate.
  - apply (proj1 (refused_body_status Samples.defaults ∅ 0%Z
             (post_json 2000000 (Some (Unsupported "unsupported charset")))
             {| media_type := MediaJson; byte_length := 2000000;
                parse_error := Some (Unsupported "unsupported charset") |}
             eq_refl (or_introl eq_refl)) "unsupported charset" eq_refl).
Defined.

(** The stages behind the body parsers do not look at the body. *)
Lemma dispatch_behind_parsers_without_body cfg req c :
  dispatch (skipn 6 (app cfg)) None req c =
  dispatch (skipn 6 (app cfg)) None (without_body req) c.
Proof.
  rewrite !dispatch_limiter. unfold under_api. cbn [without_body req_path].
  rewrite !apiLimiter_cases. cbv zeta. cbn [without_body req_ip].
  rewrite !dispatch_routes. cbv zeta. reflexivity.
Qed.

(** A body the parsers accept changes nothing: a body of another media
    type of any length, or a JSON or urlencoded body of at most 1 MB that
    parses, gets the response, and leaves the limiter's store, as the
    same request without body does. *)
Theorem accepted_body_is_ignored cfg st t req p :
  req_payload req = Some p ->
  media_type p = MediaOther \/
  ((byte_length p <= 1048576)%N /\ parse_error p = None) ->
  serve cfg st t req = serve cfg st t (without_body req).
Proof.
  intros Hp Hok.
  assert (Hb : body_accepted req = true) by (apply body_accepted_iff; rewrite Hp; exact Hok).
  assert (Hb' : body_accepted (without_body req) = true) by reflexivity.
  assert (Ho : origin_allowed cfg (without_body req) = origin_allowed cfg req) by reflexivity.
  assert (Hopt : is_options (without_body req) = is_options req) by reflexivity.
  unfold serve.
  destruct (origin_allowed cfg req) eqn:Eo.
  - destruct (is_options req) eqn:Em.
    + assert (Hm : req_method req = OPTIONS).
      { unfold is_options in Em. destruct (req_method req); try discriminate; reflexivity. }
      rewrite (dispatch_preflight cfg req _ Hb Eo Hm).
      rewrite (dispatch_preflight cfg (without_body req) _ Hb' Ho Hm). reflexivity.
    + rewrite (dispatch_passes_cors cfg req)
        by (unfold passes_cors; rewrite Hb, Eo, Em; reflexivity).
      rewrite (dispatch_passes_cors cfg (without_body req))
        by (unfold passes_cors; rewrite Hb', Ho, Hopt; reflexivity).
      rewrite dispatch_behind_parsers_without_body. reflexivity.
  - assert (He : exists e, check_origin (corsOptions (Config.corsOrigins cfg)) req = Deny e).
    { unfold origin_allowed in Eo. destruct (check_origin _ req); [discriminate | eauto]. }
    destruct He as [e He].
    assert (Hr : raised cfg req = Some e).
    { unfold raised. unfold body_accepted in Hb.
      destruct (parse_body MediaJson limit_1mb req); [discriminate|].
      destruct (parse_body MediaUrlencoded limit_1mb req); [discriminate|].
      rewrite He. reflexivity. }
    assert (Hr' : raised cfg (without_body req) = Some e).
    { unfold raised. cbn [parse_body without_body req_payload].
      change (check_origin (corsOptions (Config.corsOrigins cfg)) (without_body req))
        with (check_origin (corsOptions (Config.corsOrigins cfg)) req).
      rewrite He. reflexivity. }
    rewrite (dispatch_raised _ _ _ _ Hr), (dispatch_raised _ _ _ _ Hr'). reflexivity.
Qed.

Lemma accepted_body_is_ignored_witness :
  serve Samples.defaults ∅ 0 (post_json 1048576 None)
  = serve Samples.defaults ∅ 0 (without_body (post_json 1048576 None)).
Proof.
  apply (accepted_body_is_ignored Samples.defaults ∅ 0%Z (post_json 1048576 None)
           {| media_type := MediaJson; byte_length := 1048576; parse_error := None |}
           eq_refl).
  right. split; [vm_compute; discriminate | reflexivity].
Defined.


(** The error handler hides the error's message exactly when NODE_ENV is
    the string "production": with any other value, or none, the message
    of the error is what the body shows. *)
Theorem message_hidden_iff_production (e : Config.process_env) err req c m :
  err_message err = Some m -> m <> "Internal Server Error" ->
  exists r, errorHandler (Config.load e) err req c = Send r c /\
    (content r = generic_error_body <-> e !! "NODE_ENV" = Some "production") /\
    (e !! "NODE_ENV" <> Some "production" ->
     content r = Json (JObject [("ok", JBool false); ("error", JString m)])).
Proof.
  intros Hm Hne.
  assert (Henv : Config.env (Config.load e) = "production"
                 <-> e !! "NODE_ENV" = Some "production").
  { unfold Config.load. cbn [Config.env].
    destruct (e !! "NODE_ENV") as [[|ch v]|]; simpl;
      split; intros H; try discriminate H; congruence. }
  eexists. split; [apply errorHandler_send|].
  cbn [content]. unfold error_body, generic_error_body. rewrite Hm. cbn [option_map].
  destruct (String.eqb_spec (Config.env (Config.load e)) "production") as [Hp|Hp].
  - apply Henv in Hp. split; [split; [intros _; exact Hp | reflexivity]|].
    intros H. contradiction.
  - split; [split|reflexivity].
    + intros E. cbv in E. congruence.
    + intros H. apply Henv in H. contradiction.
Qed.

Lemma message_hidden_iff_production_witness :
  exists r, errorHandler (Config.load {[ "NODE_ENV" := "Production" ]})
              (Error "Not allowed by CORS")
              (Samples.request_of GET "/" Samples.evil)
              {| store := ∅; now := 0; out_headers := [] |}
            = Send r {| store := ∅; now := 0; out_headers := [] |} /\
    content r = Json (JObject [("ok", JBool false);
                               ("error", JString "Not allowed by CORS")]).
Proof.
  destruct (message_hidden_iff_production {[ "NODE_ENV" := "Production" ]}
              (Error "Not allowed by CORS") (Samples.request_of GET "/" Samples.evil)
              {| store := ∅; now := 0; out_headers := [] |}
              "Not allowed by CORS" eq_refl ltac:(discriminate)) as (r & Hr & _ & Hshow).
  exists r. split; [exact Hr|]. apply Hshow. vm_compute. discriminate.
Defined.

(** What one request does to the limiter's store.  A request that is
    not counted leaves it as it is.  A counted request (answered by a
    route, by the 404 middleware or with 429 alike) adds one hit to its
    client's bucket while the bucket's window lasts, and opens a bucket
    with one hit and a window of ten minutes otherwise.  The buckets of
    the other clients are never touched. *)
Theorem limiter_store_effect cfg st t req :
  (reaches_limiter cfg req = false -> (serve cfg st t req).2 = st) /\
  (reaches_limiter cfg req = true ->
     forall b, st !! req_ip req = Some b -> (t < resetTime b)%Z ->
     (serve cfg st t req).2 !! req_ip req
       = Some {| totalHits := totalHits b + 1; resetTime := resetTime b |}) /\
  (reaches_limiter cfg req = true ->
     (st !! req_ip req = None \/
      exists b, st !! req_ip req = Some b /\ (resetTime b <= t)%Z) ->
     (serve cfg st t req).2 !! req_ip req
       = Some {| totalHits := 1; resetTime := (t + 600000)%Z |}) /\
  (forall ip, ip <> req_ip req -> (serve cfg st t req).2 !! ip = st !! ip).
Proof.
  split; [|split; [|split]].
  - intros H. apply (serve_not_counted cfg st t req H).
  - intros H b Hb Hlive.
    destruct (serve_counted cfg st t req H) as (-> & _).
    rewrite lookup_insert_eq. unfold current_bucket. cbn [store now]. rewrite Hb.
    destruct (Z.leb_spec (resetTime b) t); [lia | reflexivity].
  - intros H Hold.
    destruct (serve_counted cfg st t req H) as (-> & _).
    rewrite lookup_insert_eq. unfold current_bucket. cbn [store now].
    destruct Hold as [-> | (b & -> & Hexp)]; [reflexivity|].
    destruct (Z.leb_spec (resetTime b) t); [reflexivity | lia].
  - intros ip Hip. destruct (reaches_limiter cfg req) eqn:H.
    + destruct (serve_counted cfg st t req H) as (-> & _).
      apply lookup_insert_ne. congruence.
    + destruct (serve_not_counted cfg st t req H) as (-> & _). reflexivity.
Qed.

Lemma limiter_store_effect_witness :
  (serve Samples.allow_a ∅ 7 Samples.hello).2 !! "203.0.113.7"
  = Some {| totalHits := 1; resetTime := 600007 |}.
Proof.
  apply (proj1 (proj2 (proj2 (limiter_store_effect Samples.allow_a ∅ 7%Z Samples.hello)))).
  - reflexivity.
  - left. reflexivity.
Defined.

(** Serving a request keeps every bucket's reset time within one window
    of the clock. *)
Lemma serve_resets_within cfg st t t0 req :
  resets_within t st -> (t0 <= t)%Z -> resets_within t (serve cfg st t0 req).2.
Proof.
  intros Hinv Ht ip b.
  destruct (reaches_limiter cfg req) eqn:H.
  - destruct (serve_counted cfg st t0 req H) as (-> & _).
    destruct (decide (ip = req_ip req)) as [->|Hne].
    + rewrite lookup_insert_eq. intros [= <-]. cbn [resetTime].
      unfold current_bucket. cbn [store now].
      destruct (st !! req_ip req) as [b0|] eqn:Eb; cbn [resetTime windowMs apiLimiterOptions].
      * destruct (Z.leb_spec (resetTime b0) t0); cbn [resetTime]; [lia|].
        apply (Hinv _ _ Eb).
      * lia.
    + rewrite lookup_insert_ne by congruence. apply Hinv.
  - destruct (serve_not_counted cfg st t0 req H) as (-> & _). apply Hinv.
Qed.

Lemma serve_all_resets_within cfg t reqs :
  forall st, resets_within t st ->
  Forall (fun tr : Z * request => (tr.1 <= t)%Z) reqs ->
  resets_within t (serve_all cfg st reqs).2.
Proof.
  induction reqs as [|[t0 req] rest IH]; intros st Hinv Hall; [exact Hinv|].
  inversion Hall as [|? ? Ht Hrest]; subst. simpl in Ht.
  rewrite serve_all_cons. cbn [snd].
  apply IH; [|exact Hrest]. apply serve_resets_within; assumption.
Qed.

(** Nobody stays limited for more than a window: whatever requests were
    served up to time [t], a request served ten minutes after [t] or later
    is not answered with 429. *)
Theorem quiet_window_lifts_every_limit cfg reqs t req t' :
  Forall (fun tr : Z * request => (tr.1 <= t)%Z) reqs ->
  (t + 600000 <= t')%Z ->
  let st := (serve_all cfg ∅ reqs).2 in
  status (serve cfg st t' req).1 <> 429%Z /\
  sent_by (serve cfg st t' req).1 <> ByLimiter.
Proof.
  intros Hall Ht' st.
  assert (Hinv : resets_within t st).
  { apply serve_all_resets_within; [|exact Hall].
    intros ip b Hb. rewrite lookup_empty in Hb. discriminate. }
  destruct (reaches_limiter cfg req) eqn:H.
  - destruct (serve_counted cfg st t' req H) as (_ & _ & Hresp).
    assert (Hroom : has_room st t' req = true).
    { unfold has_room, current_bucket. cbn [store now].
      destruct (st !! req_ip req) as [b|] eqn:Eb; [|reflexivity].
      specialize (Hinv _ _ Eb). cbn [windowMs apiLimiterOptions] in Hinv.
      destruct (Z.leb_spec (resetTime b) t'); [reflexivity | lia]. }
    rewrite Hroom in Hresp. destruct Hresp as [Hst Hby]. split.
    + destruct Hst as [-> | ->]; discriminate.
    + destruct Hby as [Hby | ->]; [|discriminate].
      intros E. rewrite E in Hby. discriminate.
  - destruct (serve_not_counted cfg st t' req H) as (_ & _ & Hby & Hst). auto.
Qed.

Lemma quiet_window_lifts_every_limit_witness :
  status (serve Samples.allow_a (serve_all Samples.allow_a ∅ Samples.allowed_burst).2
                600000 Samples.hello).1 <> 429%Z.
Proof.
  apply (quiet_window_lifts_every_limit Samples.allow_a Samples.allowed_burst 0%Z
           Samples.hello 600000%Z).
  - apply Forall_forall. intros x Hx.
    apply list_elem_of_In in Hx. apply (repeat_spec 101) in Hx. subst x.
    vm_compute. discriminate.
  - vm_compute. discriminate.
Defined.

(** The RateLimit headers of a counted request: with every bucket
    resetting within one window of the clock (as it is for every store the
    application builds), the response carries RateLimit-Limit 100, a
    RateLimit-Remaining of at most 99 that is 0 on a 429 answer, and a
    RateLimit-Reset between 1 and 600 seconds; a 429 answer also carries
    Retry-After with the same number of seconds, and no other answer
    does. *)
Theorem rate_limit_header_bounds cfg st t req :
  reaches_limiter cfg req = true -> resets_within t st ->
  let r := (serve cfg st t req).1 in
  exists remaining seconds,
    In ("RateLimit-Limit", "100") (headers r) /\
    In ("RateLimit-Remaining", pretty remaining) (headers r) /\
    In ("RateLimit-Reset", pretty seconds) (headers r) /\
    (remaining <= 99)%N /\ (1 <= seconds <= 600)%Z /\
    (status r = 429%Z ->
     remaining = 0%N /\ In ("Retry-After", pretty seconds) (headers r)) /\
    (status r <> 429%Z -> forall v, ~ In ("Retry-After", v) (headers r)).
Proof.
  intros H Hinv r. subst r.
  destruct (serve_counted cfg st t req H) as (_ & _ & Hresp).
  destruct (counted_headers cfg st t req H) as [Hpos Hh].
  set (b := current_bucket apiLimiterOptions
              {| store := st; now := t; out_headers := [] |} (req_ip req)) in *.
  exists (100 - (totalHits b + 1))%N, ((resetTime b - t + 999) / 1000)%Z.
  rewrite Hh.
  split; [simpl; tauto|]. split; [simpl; tauto|]. split; [simpl; tauto|].
  split; [lia|]. split.
  - split; [exact Hpos|].
    assert (Hb : (resetTime b <= t + 600000)%Z).
    { subst b. unfold current_bucket. cbn [store now].
      destruct (st !! req_ip req) as [b0|] eqn:Eb;
        cbn [resetTime windowMs apiLimiterOptions]; [|lia].
      specialize (Hinv _ _ Eb). cbn [windowMs apiLimiterOptions] in Hinv.
      destruct (Z.leb_spec (resetTime b0) t); cbn [resetTime]; lia. }
    assert ((resetTime b - t + 999) / 1000 < 601)%Z
      by (apply Z.div_lt_upper_bound; lia).
    lia.
  - unfold has_room in *. fold b in Hresp, Hh |- *.
    change (max apiLimiterOptions) with 100%N in *.
    destruct (N.ltb_spec (totalHits b) 100).
    + destruct Hresp as [Hst _]. split.
      * intros E. destruct Hst as [Hs | Hs]; rewrite Hs in E; discriminate.
      * intros _ v Hin. simpl in Hin.
        destruct Hin as [E|[E|[E|[E|[]]]]]; discriminate E.
    + destruct Hresp as (Hs & _). split.
      * intros _. split; [lia|]. simpl. tauto.
      * intros Hne. contradiction.
Qed.

Lemma rate_limit_header_bounds_witness :
  exists remaining seconds,
    In ("RateLimit-Remaining", pretty remaining)
       (headers (serve Samples.allow_a ∅ 7 Samples.hello).1) /\
    In ("RateLimit-Reset", pretty seconds)
       (headers (serve Samples.allow_a ∅ 7 Samples.hello).1) /\
    (remaining <= 99)%N /\ (1 <= seconds <= 600)%Z.
Proof.
  destruct (rate_limit_header_bounds Samples.allow_a ∅ 7%Z Samples.hello eq_refl)
    as (rem & secs & _ & Hr & Hs & Hle & Hb & _).
  - intros ip b Hb. rewrite lookup_empty in Hb. discriminate.
  - exists rem, secs. auto.
Defined.







End MoreServerFacts.

(** ** Further properties of the configuration loader *)

Section MoreConfigFacts.

Import Notions.
Local Open Scope string_scope.

Lemma digit_of_digit c :
  is_digit c = true -> JS.digit_of 10 c = Some (N_of_ascii c - 48) /\ JS.is_ws c = false.
Proof.
  unfold is_digit, JS.digit_of, JS.is_ws. intros H. rewrite H.
  apply andb_true_iff in H as [H1 H2]. apply N.leb_le in H1, H2.
  split.
  - destruct (N.ltb_spec (N_of_ascii c - 48) 10); [reflexivity | lia].
  - destruct (N.leb_spec 9 (N_of_ascii c)), (N.leb_spec (N_of_ascii c) 13),
      (N.eqb_spec (N_of_ascii c) 32), (N.eqb_spec (N_of_ascii c) 160);
      simpl; try reflexivity; lia.
Qed.

Lemma take_digits_all s :
  JS.all_chars is_digit s = true ->
  forall acc cnt,
    JS.take_digits 10 s acc cnt = (decimal_value_from acc s, (cnt + String.length s)%nat, "").
Proof.
  induction s as [|c r IH]; intros H acc cnt; simpl.
  - rewrite Nat.add_0_r. reflexivity.
  - simpl in H. apply andb_true_iff in H as [Hc Hr].
    destruct (digit_of_digit c Hc) as [-> _]. rewrite (IH Hr).
    rewrite Nat.add_succ_r. reflexivity.
Qed.

Lemma trim_digits s : JS.all_chars is_digit s = true -> JS.trim s = s.
Proof.
  intros H. unfold JS.trim.
  assert (Hs : JS.trim_start s = s).
  { destruct s as [|c r]; [reflexivity|]. simpl in *.
    apply andb_true_iff in H as [Hc _].
    destruct (digit_of_digit c Hc) as [_ ->]. reflexivity. }
  rewrite Hs. clear Hs.
  induction s as [|c r IH]; [reflexivity|]. simpl in *.
  apply andb_true_iff in H as [Hc Hr]. rewrite (IH Hr).
  destruct (digit_of_digit c Hc) as [_ ->]. destruct r; reflexivity.
Qed.

Lemma unsigned_decimal_digits s :
  s <> "" -> JS.all_chars is_digit s = true ->
  JS.unsigned_decimal false s = Some (JS.Num false (decimal_value s) 0).
Proof.
  intros Hne H. unfold JS.unsigned_decimal.
  assert (Hinf : String.eqb s "Infinity" = false).
  { destruct (String.eqb_spec s "Infinity") as [->|]; [discriminate H | reflexivity]. }
  rewrite Hinf, (take_digits_all s H). cbn [Nat.add].
  destruct s as [|c r]; [contradiction|]. reflexivity.
Qed.

Lemma numeric_literal_digits s :
  s <> "" -> JS.all_chars is_digit s = true ->
  JS.numeric_literal s = JS.unsigned_decimal false s.
Proof.
  intros Hne H. destruct s as [|c r]; [contradiction|].
  simpl in H. apply andb_true_iff in H as [Hc Hr].
  destruct c as [[] [] [] [] [] [] [] []]; try discriminate Hc; try reflexivity.
  destruct r as [|p r]; [reflexivity|].
  simpl in Hr. apply andb_true_iff in Hr as [Hp _].
  destruct p as [[] [] [] [] [] [] [] []]; try discriminate Hp; reflexivity.
Qed.

(** A PORT written with decimal digits only, and whose value is below
    2^53, is read as the number it writes, leading zeros included (no
    octal reading). *)
Theorem port_of_digits (e : Config.process_env) s :
  e !! "PORT" = Some s -> s <> "" -> JS.all_chars is_digit s = true ->
  (decimal_value s < 9007199254740992)%N ->
  Config.port (Config.load e) = JS.Num false (decimal_value s) 0.
Proof.
  intros He Hne H _. unfold Config.load. cbn [Config.port]. rewrite He.
  unfold Config.load_port, JS.or_operand.
  destruct s as [|c r]; [contradiction|]. cbn [JS.truthy].
  unfold JS.string_to_number. rewrite (trim_digits _ H).
  rewrite (numeric_literal_digits _ Hne H), (unsigned_decimal_digits _ Hne H).
  reflexivity.
Qed.

Lemma port_of_digits_witness :
  Config.port (Config.load {[ "PORT" := "08080" ]}) = JS.Num false 8080 0.
Proof.
  assert (He : ({[ "PORT" := "08080" ]} : Config.process_env) !! "PORT" = Some "08080")
    by (vm_compute; reflexivity).
  apply (port_of_digits _ "08080" He); [discriminate | reflexivity | vm_compute; reflexivity].
Defined.

(** A PORT that is set to white space only is neither missing nor
    invalid for the loader: the port is 0. *)
Theorem port_of_blank (e : Config.process_env) s :
  e !! "PORT" = Some s -> s <> "" -> JS.all_chars JS.is_ws s = true ->
  Config.port (Config.load e) = JS.Num false 0 0.
Proof.
  intros He Hne H. unfold Config.load. cbn [Config.port]. rewrite He.
  unfold Config.load_port, JS.or_operand.
  destruct s as [|c r]; [contradiction|]. cbn [JS.truthy].
  unfold JS.string_to_number. rewrite (trim_ws _ H). reflexivity.
Qed.

Lemma port_of_blank_witness :
  Config.port (Config.load {[ "PORT" := "  " ]}) = JS.Num false 0 0.
Proof.
  assert (He : ({[ "PORT" := "  " ]} : Config.process_env) !! "PORT" = Some "  ")
    by (vm_compute; reflexivity).
  apply (port_of_blank _ "  " He); [discriminate | reflexivity].
Defined.

Lemma trim_fixed s :
  (forall c, JS.head_char s = Some c -> JS.is_ws c = false) ->
  (forall c, JS.last_char s = Some c -> JS.is_ws c = false) ->
  JS.trim s = s.
Proof.
  intros Hh Hl. unfold JS.trim.
  assert (Hs : JS.trim_start s = s).
  { destruct s as [|c r]; [reflexivity|]. simpl. rewrite (Hh c eq_refl). reflexivity. }
  rewrite Hs. clear Hs Hh.
  induction s as [|c r IH]; [reflexivity|].
  destruct r as [|d r'].
  - simpl. rewrite (Hl c eq_refl). reflexivity.
  - change (JS.trim_end (String c (String d r')))
      with (match JS.trim_end (String d r') with
            | "" => if JS.is_ws c then "" else String c ""
            | r0 => String c r0
            end).
    rewrite IH; [reflexivity|]. intros c0 Hc0. apply Hl. exact Hc0.
Qed.

Lemma split_on_single sep piece :
  JS.has_char sep piece = false -> JS.split_on sep piece = [piece].
Proof.
  induction piece as [|c r IH]; [reflexivity|]. simpl.
  intros H. apply orb_false_iff in H as [Hc Hr]. rewrite Hc, (IH Hr). reflexivity.
Qed.

Lemma split_on_app sep piece rest :
  JS.has_char sep piece = false ->
  JS.split_on sep (piece ++ String sep rest) = piece :: JS.split_on sep rest.
Proof.
  induction piece as [|c r IH]; intros H.
  - rewrite append_empty. simpl. rewrite Ascii.eqb_refl. reflexivity.
  - simpl in H. apply orb_false_iff in H as [Hc Hr].
    rewrite append_cons. simpl. rewrite Hc, (IH Hr). reflexivity.
Qed.

(** Splitting what [join] made of pieces without separator gives the
    pieces back. *)
Lemma split_join sep pieces :
  pieces <> [] -> Forall (fun piece => JS.has_char sep piece = false) pieces ->
  JS.split_on sep (JS.join sep pieces) = pieces.
Proof.
  induction pieces as [|p rest IH]; [contradiction|]. intros _ Hall.
  inversion Hall as [|? ? Hp Hrest]; subst.
  destruct rest as [|q rest]; [apply split_on_single, Hp|].
  change (JS.join sep (p :: q :: rest)) with (p ++ String sep (JS.join sep (q :: rest))).
  rewrite (split_on_app _ _ _ Hp), IH; [reflexivity | discriminate | exact Hrest].
Qed.

(** The parsed list is a normal form: written back as one value with
    commas between the entries, it parses to itself. *)
Theorem parseOrigins_stable v :
  Config.parseOrigins (Some (JS.join JS.comma (Config.parseOrigins v)))
  = Config.parseOrigins v.
Proof.
  pose proof (parseOrigins_entries v) as Hent.
  generalize dependent (Config.parseOrigins v). intros l Hent.
  destruct l as [|o l]; [reflexivity|].
  rewrite parseOrigins_unfold, split_join; [|discriminate|].
  - assert (Hall : forall x, In x (o :: l) -> JS.trim x = x /\ JS.truthy x = true).
    { intros x Hx. destruct (Hent x Hx) as (Hne & _ & Hh & Hl & _).
      split; [apply trim_fixed; assumption|]. destruct x; [contradiction | reflexivity]. }
    clear Hent. induction (o :: l) as [|x rest IH]; [reflexivity|].
    cbn [List.map List.filter]. destruct (Hall x (or_introl eq_refl)) as [-> ->].
    f_equal. apply IH. intros y Hy. apply Hall. right. exact Hy.
  - apply Forall_forall. intros x Hx. apply list_elem_of_In in Hx.
    destruct (Hent x Hx) as (_ & Hc & _). exact Hc.
Qed.

(** With an allow-list, the CORS stage accepts a non-empty Origin header
    exactly when it is, letter for letter, one of the comma-separated
    entries of CORS_ORIGINS with the white space around it removed. *)
Theorem allowed_origin_iff_listed (e : Config.process_env) req o :
  Config.corsOrigins (Config.load e) <> [] ->
  Http.req_origin req = Some o -> o <> "" ->
  (Server.origin_allowed (Config.load e) req = true <->
   exists v piece, e !! "CORS_ORIGINS" = Some v /\
                   In piece (JS.split_on JS.comma v) /\ JS.trim piece = o).
Proof.
  intros Hne Ho Hoe. rewrite origin_allowed_iff. split.
  - intros [H | [H | [H | (o' & Ho' & Hin)]]]; try congruence.
    rewrite Ho in Ho'. injection Ho' as <-.
    apply list_elem_of_In in Hin. unfold Config.load in Hin. cbn [Config.corsOrigins] in Hin.
    destruct (parseOrigins_entries _ _ Hin) as (_ & _ & _ & _ & v & piece & Hv & Hp & ->).
    eauto.
  - intros (v & piece & Hv & Hp & Ht). right. right. right.
    exists o. split; [exact Ho|]. apply list_elem_of_In.
    unfold Config.load. cbn [Config.corsOrigins]. rewrite Hv, parseOrigins_unfold.
    apply filter_In. split.
    + apply in_map_iff. eauto.
    + destruct o; [contradiction | reflexivity].
Qed.

Lemma allowed_origin_iff_listed_witness :
  Server.origin_allowed
    (Config.load {[ "CORS_ORIGINS" := " https://a.example , https://b.example" ]})
    (Samples.request_of Http.GET "/" (Some "https://a.example")) = true.
Proof.
  assert (Hne : Config.corsOrigins
                  (Config.load {[ "CORS_ORIGINS" := " https://a.example , https://b.example" ]})
                <> []) by (vm_compute; discriminate).
  assert (Hoe : "https://a.example" <> "") by discriminate.
  apply (proj2 (allowed_origin_iff_listed _
                  (Samples.request_of Http.GET "/" (Some "https://a.example"))
                  "https://a.example" Hne eq_refl Hoe)).
  exists " https://a.example , https://b.example", " https://a.example ".
  split; [vm_compute; reflexivity|]. split; [left; reflexivity | reflexivity].
Defined.

End MoreConfigFacts.

(** ** Further properties of logging and shutdown *)

Section MoreShutdownFacts.

Import Shutdown Notions.
Local Open Scope string_scope.

(** The log level never falls when the status code rises or an error is
    attached, and is always one of "info", "warn" and "error": "info"
    below 400 without error, "error" from 500 on or with an error. *)
Theorem customLogLevel_monotone st st' err :
  (st <= st')%Z ->
  let level := Server.customLogLevel in
  (severity (level st err) <= severity (level st' err))%nat /\
  (forall e, severity (level st err) <= severity (level st (Some e)))%nat /\
  (forall e, level st (Some e) = "error") /\
  ((st < 400)%Z -> level st None = "info") /\
  ((500 <= st)%Z -> level st err = "error") /\
  In (level st err) ["info"; "warn"; "error"].
Proof.
  intros Hle level. subst level. unfold Server.customLogLevel.
  destruct (Z.leb_spec 500 st), (Z.leb_spec 500 st'), (Z.leb_spec 400 st),
    (Z.leb_spec 400 st'); destruct err as [e0|]; simpl;
    repeat split; intros; auto; try lia; vm_compute; lia.
Qed.

Lemma customLogLevel_monotone_witness :
  (severity (Server.customLogLevel 404 None)
   <= severity (Server.customLogLevel 503 None))%nat.
Proof.
  apply (customLogLevel_monotone 404 503 None). vm_compute. discriminate.
Defined.




(** One step from a process that is not over: it either goes on with
    nothing but shutdown starts in its log, or exits with one last log
    entry that fits the exit code, or is ended by a signal. *)
Lemma step_log q ev q' :
  log_before_exit q -> step q ev = Some q' ->
  match exit_code q' with
  | None => ended q' = false -> log_before_exit q'
  | Some c =>
      log q <> [] /\
      exists final, log q' = (log q ++ [final])%list /\
        ((c = 0%Z /\ final = WarnClosed) \/
         (c = 1%Z /\ ((exists e, final = ErrorClosing e) \/ final = ErrorForcing)))
  end.
Proof.
  intros (Hex & Hstarts & Hne) Hstep.
  apply ended_false in Hex as [Hex Hk].
  destruct q as [clk lis pend tms lg ex kb]. simpl in *. subst ex kb.
  unfold step in Hstep. cbn [ended exit_code killed_by close_pending timers clock] in Hstep.
  destruct ev as [s | err | | dt].
  - destruct (handled s); injection Hstep as <-.
    + unfold log_before_exit, shutdown, setTimeout_unref, server_close, logger, stmt. simpl.
      intros _. split; [reflexivity|]. split.
      * apply Forall_app. split; [exact Hstarts|]. repeat constructor. exists s. reflexivity.
      * intros _. destruct lg; discriminate.
    + simpl. intros H; discriminate H.
  - destruct pend as [|pend]; [discriminate|]. injection Hstep as <-.
    assert (Hlg : lg <> []) by (apply Hne; left; lia).
    destruct err as [e|]; simpl; (split; [exact Hlg|]); eexists; split;
      try reflexivity; eauto.
  - destruct (existsb _ _) eqn:Hdue; [|discriminate]. injection Hstep as <-.
    assert (Hlg : lg <> []).
    { apply Hne. right. intros ->. discriminate Hdue. }
    simpl. split; [exact Hlg|]. eexists. split; [reflexivity|]. right. auto.
  - destruct (Z.ltb_spec 0 dt); [|discriminate]. injection Hstep as <-.
    unfold log_before_exit. simpl. auto.
Qed.

(** However the process exits, its log is a non-empty run of shutdown
    starts and one last entry: "HTTP server closed" with code 0, and the
    closing error or "Forcing shutdown" with code 1.  In particular the
    server is never reported closed after an error. *)
Theorem exit_log t0 evs p c :
  run (running t0) evs = Some p -> exit_code p = Some c ->
  exists starts final,
    log p = (starts ++ [final])%list /\ starts <> [] /\ Forall is_start starts /\
    ((c = 0%Z /\ final = WarnClosed) \/
     (c = 1%Z /\ ((exists e, final = ErrorClosing e) \/ final = ErrorForcing))).
Proof.
  assert (Hgen : forall evs q, log_before_exit q -> run q evs = Some p ->
            exit_code p = Some c ->
            exists starts final,
              log p = (starts ++ [final])%list /\ starts <> [] /\ Forall is_start starts /\
              ((c = 0%Z /\ final = WarnClosed) \/
               (c = 1%Z /\ ((exists e, final = ErrorClosing e) \/ final = ErrorForcing)))).
  { clear evs. induction evs as [|ev evs IH]; intros q Hq Hrun Hc; simpl in Hrun.
    - injection Hrun as <-. destruct Hq as (Hex & _).
      apply ended_false in Hex as [Hex _]. congruence.
    - destruct (step q ev) as [q'|] eqn:Hstep; [|discriminate].
      pose proof (step_log q ev q' Hq Hstep) as Hq'.
      destruct (ended q') eqn:Hend.
      + destruct (run_ended q' evs p Hend Hrun) as [-> ->].
        rewrite Hc in Hq'.
        destruct Hq' as (Hne & final & Hlog & Hfin).
        exists (log q), final. destruct Hq as (_ & Hstarts & _). auto.
      + pose proof Hend as Hend'. apply ended_false in Hend' as [Hex _].
        rewrite Hex in Hq'. apply (IH q' (Hq' eq_refl) Hrun Hc). }
  intros Hrun Hc. apply (Hgen evs (running t0)); [|exact Hrun | exact Hc].
  unfold log_before_exit. simpl. repeat split; [constructor|].
  intros [H | H]; [lia | contradiction].
Qed.

Lemma exit_log_witness :
  option_map log (run (running 0) [Signal SIGINT; Tick 300; Closed None])
  = Some [WarnShutdownStart SIGINT; WarnClosed].
Proof.
  destruct (run (running 0) [Signal SIGINT; Tick 300; Closed None]) as [p|] eqn:E;
    [|vm_compute in E; discriminate E].
  assert (Hc : exit_code p = Some 0%Z) by (vm_compute in E; injection E as <-; reflexivity).
  destruct (exit_log 0 _ p 0%Z E Hc) as (starts & final & Hlog & _).
  vm_compute in E. injection E as <-. reflexivity.
Defined.

End MoreShutdownFacts.

(** ** Preflight requests *)

Section PreflightFacts.

Import Http Server.
Local Open Scope string_scope.

(** An OPTIONS request that the body parsers accept and whose origin is
    not refused never gets further than the CORS stage, whatever its path
    is: the answer is 204 without body, no route and no 404 middleware
    runs, and under /api the limiter does not count it. *)
Theorem options_is_preflight cfg st t req :
  req_method req = OPTIONS ->
  body_accepted req = true -> origin_allowed cfg req = true ->
  let r := (serve cfg st t req).1 in
  status r = 204%Z /\ content r = NoBody /\ sent_by r = ByCors /\
  headers r = [] /\ (serve cfg st t req).2 = st.
Proof.
  intros Hm Hb Ho r. subst r. unfold serve.
  rewrite (dispatch_preflight _ _ _ Hb Ho Hm). simpl. auto.
Qed.

Lemma options_is_preflight_witness :
  status (serve Samples.defaults ∅ 0
            (Samples.request_of OPTIONS "/api/hello" Samples.evil)).1 = 204%Z.
Proof.
  destruct (options_is_preflight Samples.defaults ∅ 0%Z
              (Samples.request_of OPTIONS "/api/hello" Samples.evil)
              eq_refl eq_refl eq_refl) as (H & _).
  exact H.
Defined.

End PreflightFacts.
